(** * Mixed-precision CG and BlockCGrQ control loop (lib/inv_cg_quda.cpp)

    A shallow embedding of the numerical control loop of QUDA's conjugate
    gradient solver: the single right-hand-side solver [CG::operator()],
    the reliable-update test of the block solver [CG::block_reliable], the
    residual bookkeeping of [CG::solve_n] and the dispatcher [CG::solve];
    further the auxiliary worker [BlockCGUpdate] and the block iteration
    of [CG::solve_n], with the dense-matrix library and the multi-field
    kernels it calls as parameters.

    C++ [double] is IEEE binary64 and is modelled by Rocq's primitive
    [float]; [int] counters are modelled by [Z] (they are bounded by the
    iteration count, no wrap-around is reachable).  Fields are vectors of
    complex numbers held at binary64: the narrowing of the sloppy copies
    to single or half precision is not modelled, only the aliasing of the
    sloppy buffers with the reference ones is. *)

From Stdlib Require Import ZArith List Bool Lia String.
From Stdlib Require Import Floats.
Import ListNotations.

Local Open Scope Z_scope.

(* ================================================================= *)
(** * Binary64 comparisons *)

(** The comparison primitives are specified by [SFcompare] on
    [spec_float]. A rank into triples of integers, ordered
    lexicographically, gives the order its algebra. *)
Module Double.

Local Open Scope float_scope.

(** [std::max(a, b)] is [(a < b) ? b : a]; [std::min(a, b)] is
    [(b < a) ? b : a]. *)
Definition max (a b : float) : float := if a <? b then b else a.

Definition rank (x : spec_float) : option (Z * Z * Z) :=
  match x with
  | S754_nan => None
  | S754_infinity true => Some (-2, 0, 0)%Z
  | S754_infinity false => Some (2, 0, 0)%Z
  | S754_zero _ => Some (0, 0, 0)%Z
  | S754_finite true m e => Some (-1, - e, Z.neg m)%Z
  | S754_finite false m e => Some (1, e, Z.pos m)%Z
  end.

Definition lex3 (a b : Z * Z * Z) : comparison :=
  let '(a1, a2, a3) := a in
  let '(b1, b2, b3) := b in
  match a1 ?= b1 with
  | Eq => match a2 ?= b2 with
          | Eq => a3 ?= b3
          | c => c
          end
  | c => c
  end%Z.

Definition rank_compare (x y : spec_float) : option comparison :=
  match rank x, rank y with
  | Some a, Some b => Some (lex3 a b)
  | _, _ => None
  end.

End Double.

(* ================================================================= *)
(** * Complex numbers, fields and the field kernels *)

Definition Complex : Type := float * float.

Module Cx.
Local Open Scope float_scope.

Definition re (z : Complex) : float := fst z.
Definition im (z : Complex) : float := snd z.
Definition zero : Complex := (0, 0).
Definition add (a b : Complex) : Complex := (re a + re b, im a + im b).
Definition sub (a b : Complex) : Complex := (re a - re b, im a - im b).
Definition opp (a : Complex) : Complex := (- re a, - im a).
Definition conj (a : Complex) : Complex := (re a, - im a).
(** [std::complex] product by the textbook formula (the recovery of
    infinities from a NaN+iNaN product is left out). *)
Definition mul (a b : Complex) : Complex :=
  (re a * re b - im a * im b, re a * im b + im a * re b).
Definition scale (s : float) (a : Complex) : Complex := (s * re a, s * im a).
Definition div_real (a : Complex) (s : float) : Complex := (re a / s, im a / s).
(** [std::norm]: the squared magnitude. *)
Definition norm (a : Complex) : float := re a * re a + im a * im a.

End Cx.

(** A field is its vector of complex components. *)
Definition Field : Type := list Complex.

Fixpoint map2 {A B C : Type} (f : A -> B -> C) (u : list A) (v : list B) : list C :=
  match u, v with
  | a :: u', b :: v' => f a b :: map2 f u' v'
  | _, _ => []
  end.

(** The BLAS-like kernels of [blas_quda.h], which is not part of the
    solver's file. Reductions are summed left to right. *)
Module blas.
Local Open Scope float_scope.

Definition sum (l : list float) : float := fold_left add l 0.
Definition csum (l : list Complex) : Complex := fold_left Cx.add l Cx.zero.

(** Modelled from the spec: [copy] and [zero] of the field interface. *)
Definition zero (x : Field) : Field := map (fun _ => Cx.zero) x.

(** Modelled from the spec: [norm2], the squared 2-norm. *)
Definition norm2 (x : Field) : float := sum (map Cx.norm x).

(** Modelled from the spec: [reDotProduct], the real part of the inner
    product. *)
Definition reDotProduct (x y : Field) : float :=
  sum (map2 (fun a b => Cx.re a * Cx.re b + Cx.im a * Cx.im b) x y).

(** Modelled from the spec: [cDotProduct], the inner product, conjugate
    linear in its first argument. *)
Definition cDotProduct (x y : Field) : Complex :=
  csum (map2 (fun a b => Cx.mul (Cx.conj a) b) x y).

(** Modelled from the spec: [axpy], [y <- a x + y]. *)
Definition axpy (a : float) (x y : Field) : Field :=
  map2 (fun xi yi => Cx.add (Cx.scale a xi) yi) x y.

(** Modelled from the spec: [xpy], [y <- x + y]. *)
Definition xpy (x y : Field) : Field := map2 Cx.add x y.

(** Modelled from the spec: [xpay], [y <- x + a y]. *)
Definition xpay (x : Field) (a : float) (y : Field) : Field :=
  map2 (fun xi yi => Cx.add xi (Cx.scale a yi)) x y.

(** Modelled from the spec: [caxpy], [y <- a x + y] with complex [a]. *)
Definition caxpy (a : Complex) (x y : Field) : Field :=
  map2 (fun xi yi => Cx.add (Cx.mul a xi) yi) x y.

(** Modelled from the spec: [xmyNorm], [r <- b - r; return |r|^2].
    Returns the norm and the new second argument. *)
Definition xmyNorm (x y : Field) : float * Field :=
  let y' := map2 Cx.sub x y in (norm2 y', y').

(** Modelled from the spec: [axpyNorm], [y <- a x + y; return |y|^2]. *)
Definition axpyNorm (a : float) (x y : Field) : float * Field :=
  let y' := axpy a x y in (norm2 y', y').

(** Modelled from the spec: [axpyCGNorm] updates [y <- a x + y] and
    returns the packed pair [(|y_new|^2, <y_new, y_new - y_old>)]. *)
Definition axpyCGNorm (a : float) (x y : Field) : Complex * Field :=
  let y' := axpy a x y in
  ((norm2 y', reDotProduct y' (map2 Cx.sub y' y)), y').

(** Modelled from the spec: [axpyZpbx], [x <- x + a p; p <- r + b p].
    Arguments as in the call [axpyZpbx(a, p, x, r, b)]; returns the new
    [p] and the new [x]. *)
Definition axpyZpbx (a : float) (p x r : Field) (b : float) : Field * Field :=
  (xpay r b p, axpy a p x).

(** Modelled from the spec: [tripleCGReduction(r, Ap, p)] fuses
    [<r,r>], [<Ap,Ap>] and [<p,Ap>]. *)
Definition tripleCGReduction (x y z : Field) : float * float * float :=
  (norm2 x, norm2 y, reDotProduct z y).

(** Modelled from the spec: [quadrupleCGReduction] adds [<p,p>]. *)
Definition quadrupleCGReduction (x y z : Field) : float * float * float * float :=
  (norm2 x, norm2 y, reDotProduct z y, norm2 z).

(** Modelled from the spec: [tripleCGUpdate(a, b, Ap, x, r, p)], the
    pipelined fused update [x <- x + a p; r <- r - a Ap; p <- r + b p].
    Returns the new [x], [r] and [p]. *)
Definition tripleCGUpdate (a b : float) (Ap x r p : Field) : Field * Field * Field :=
  let x' := axpy a p x in
  let r' := axpy (- a) Ap r in
  (x', r', xpay r' b p).

(** Modelled from the spec: [cDotProductNormA(p, Ap)], the inner product
    together with the norm of its first argument, packed as
    [(re, im, |p|^2)]. *)
Definition cDotProductNormA (x y : Field) : float * float * float :=
  let c := cDotProduct x y in (Cx.re c, Cx.im c, norm2 x).

End blas.

(* ================================================================= *)
(** * Parameters, fields and collaborators *)

Set Warnings "-inexact-float".

Inductive QudaFieldLocation : Type :=
  | QUDA_CPU_FIELD_LOCATION
  | QUDA_CUDA_FIELD_LOCATION.

Definition location_eqb (a b : QudaFieldLocation) : bool :=
  match a, b with
  | QUDA_CPU_FIELD_LOCATION, QUDA_CPU_FIELD_LOCATION => true
  | QUDA_CUDA_FIELD_LOCATION, QUDA_CUDA_FIELD_LOCATION => true
  | _, _ => false
  end.

(** A [ColorSpinorField] as the solver sees it: where it lives, its
    element precision in bytes, and its components. A composite field
    of the block solver lists its component fields in [Components]. *)
Record ColorSpinorField : Type := {
  FieldLocation : QudaFieldLocation;
  Precision : Z;
  data : Field;
  Components : list Field
}.

(** Modelled from the spec: [Location(x, b)], the common location of
    the two fields ([None] when they disagree); any answer but the
    accelerator is a usage error in the solvers. *)
Definition Location (x b : ColorSpinorField) : option QudaFieldLocation :=
  if location_eqb (FieldLocation x) (FieldLocation b)
  then Some (FieldLocation x) else None.

Definition on_device (x b : ColorSpinorField) : bool :=
  match Location x b with
  | Some QUDA_CUDA_FIELD_LOCATION => true
  | _ => false
  end.

(** Modelled from the spec: [residual_type] is a bitset over {L2,
    heavy-quark}; the bits are numbered as in the host's enumeration,
    which is not part of the solver's file. *)
Definition QUDA_L2_RELATIVE_RESIDUAL : Z := 1.
Definition QUDA_HEAVY_QUARK_RESIDUAL : Z := 4.

(** [SolverParam], the parameter block; [param.delta P] reads as the
    source's [param.delta]. *)
Module param.

Record SolverParam : Type := {
  tol : float;
  tol_hq : float;
  delta : float;
  residual_type : Z;
  maxiter : Z;
  max_res_increase : Z;
  max_res_increase_total : Z;
  precision : Z;
  precision_sloppy : Z;
  use_sloppy_partial_accumulator : bool;
  pipeline : bool;
  compute_true_res : bool;
  compute_null_vector : bool;
  num_src : Z;
  heavy_quark_check : Z;
  true_res : float;
  true_res_hq : float;
  iter : Z
}.

Definition set_true_res (P : SolverParam) (res res_hq : float) : SolverParam :=
  {| tol := tol P; tol_hq := tol_hq P; delta := delta P;
     residual_type := residual_type P; maxiter := maxiter P;
     max_res_increase := max_res_increase P;
     max_res_increase_total := max_res_increase_total P;
     precision := precision P; precision_sloppy := precision_sloppy P;
     use_sloppy_partial_accumulator := use_sloppy_partial_accumulator P;
     pipeline := pipeline P; compute_true_res := compute_true_res P;
     compute_null_vector := compute_null_vector P; num_src := num_src P;
     heavy_quark_check := heavy_quark_check P;
     true_res := res; true_res_hq := res_hq; iter := iter P |}.

Definition set_iter (P : SolverParam) (it : Z) : SolverParam :=
  {| tol := tol P; tol_hq := tol_hq P; delta := delta P;
     residual_type := residual_type P; maxiter := maxiter P;
     max_res_increase := max_res_increase P;
     max_res_increase_total := max_res_increase_total P;
     precision := precision P; precision_sloppy := precision_sloppy P;
     use_sloppy_partial_accumulator := use_sloppy_partial_accumulator P;
     pipeline := pipeline P; compute_true_res := compute_true_res P;
     compute_null_vector := compute_null_vector P; num_src := num_src P;
     heavy_quark_check := heavy_quark_check P;
     true_res := true_res P; true_res_hq := true_res_hq P; iter := it |}.

End param.
Abbreviation SolverParam := param.SolverParam.

(** The external collaborators: the operator in its two precisions, what
    an operator application leaves in the scratch field it is lent, and
    the heavy-quark kernels (their [.z] component). *)
Record Host : Type := {
  mat : Field -> Field;
  matSloppy : Field -> Field;
  mat_scratch : Field -> Field -> Field;
  HeavyQuarkResidualNorm : Field -> Field -> float;
  xpyHeavyQuarkResidualNorm : Field -> Field -> Field -> float
}.

(** Compile-time switches and constants of the build. *)
Record Build : Type := {
  ALTRELIABLE : bool;
  BLOCKSOLVER : bool;
  BLOCKSOLVER_RELIABLE_POLICY_MIN : bool;
  QUDA_MAX_BLOCK_SRC : Z
}.

(** A call either ends in the host's fatal-error hook ([errorQuda]) or
    returns. *)
Inductive Outcome (A : Type) : Type :=
  | Fatal (msg : string)
  | Returned (a : A).
Arguments Fatal {A} msg.
Arguments Returned {A} a.

(* ================================================================= *)
(** * Residual / convergence module *)

Module Solver.
Local Open Scope float_scope.

Definition has_bit (t bit : Z) : bool := negb (Z.land t bit =? 0)%Z.

(** Modelled from the spec: [stopping], the threshold
    [stop = tol^2 * |b|^2] of the base solver class. *)
Definition stopping (tol b2 : float) (residual_type : Z) : float := tol * tol * b2.

(** Modelled from the spec: [convergenceL2], the L2 predicate
    [r2 <= stop], demanded when [residual_type] selects L2. *)
Definition convergenceL2 (P : SolverParam) (r2 hq2 r2_tol hq_tol : float) : bool :=
  negb (has_bit (param.residual_type P) QUDA_L2_RELATIVE_RESIDUAL) || (r2 <=? r2_tol).

(** Modelled from the spec: [convergenceHQ], the heavy-quark predicate
    [heavy_quark_res <= tol_hq], demanded when [residual_type] selects
    the heavy-quark residual. *)
Definition convergenceHQ (P : SolverParam) (r2 hq2 r2_tol hq_tol : float) : bool :=
  negb (has_bit (param.residual_type P) QUDA_HEAVY_QUARK_RESIDUAL) || (hq2 <=? hq_tol).

(** Modelled from the spec: [convergence], every selected criterion
    holds. *)
Definition convergence (P : SolverParam) (r2 hq2 r2_tol hq_tol : float) : bool :=
  convergenceHQ P r2 hq2 r2_tol hq_tol && convergenceL2 P r2 hq2 r2_tol hq_tol.

End Solver.

(* ================================================================= *)
(** * Single right-hand-side CG: [CG::operator()] *)

(** The locals of [CG::operator()] that live across iterations.
    [applications] is a ghost counter of operator applications. *)
Module st.

Record State : Type := {
  x : Field; y : Field; r : Field;
  xSloppy : Field; rSloppy : Field; p : Field; Ap : Field;
  r2 : float; r2_old : float; pAp : float; alpha : float; beta : float;
  rNorm : float; r0Norm : float; maxrx : float; maxrr : float; delta : float;
  heavy_quark_res : float; heavy_quark_res_old : float;
  d : float; d_new : float; dinit : float;
  xnorm : float; pnorm : float; ppnorm : float;
  k : Z; rUpdate : Z; steps_since_reliable : Z;
  resIncrease : Z; resIncreaseTotal : Z; hqresIncrease : Z;
  L2breakdown : bool; heavy_quark_restart : bool; converged : bool;
  applications : Z
}.

End st.

Module CG.
Local Open Scope float_scope.

(** An iteration either falls through to the loop test or leaves the
    loop by [break]. *)
Inductive Step : Type :=
  | Continue (s : st.State)
  | Break (s : st.State).

Definition state_of (t : Step) : st.State :=
  match t with Continue s | Break s => s end.

(** Step 4 of an iteration: the step length and the update of the
    sloppy residual, fused with its reductions. *)
Record Fused : Type := {
  f_r2_old : float; f_pAp : float; f_ppnorm : float; f_alpha : float;
  f_r2 : float; f_sigma : float; f_breakdown : bool; f_rSloppy : Field
}.

(** The reliable-update decision. *)
Record Trigger : Type := {
  t_rNorm : float; t_maxrx : float; t_maxrr : float;
  t_updateX : bool; t_updateR : bool
}.

(** Result of the break-out check after a residual replacement. *)
Record BreakOut : Type := {
  bo_resIncrease : Z; bo_resIncreaseTotal : Z;
  bo_L2breakdown : bool; bo_break : bool
}.

(** Result of the heavy-quark restart block. *)
Record Restart : Type := {
  hr_delta : float; hr_heavy_quark_restart : bool;
  hr_hqresIncrease : Z; hr_break : bool
}.

Section SingleRHS.

Variable bld : Build.
Variable h : Host.
Variable P : SolverParam.

Definition alternative_reliable : bool := ALTRELIABLE bld.

Definition use_heavy_quark_res : bool :=
  Solver.has_bit (param.residual_type P) QUDA_HEAVY_QUARK_RESIDUAL.

(** How many consecutive reliable-update residual increases are
    tolerated: none when the heavy-quark residual is in use. *)
Definition maxResIncrease : Z :=
  if use_heavy_quark_res then 0%Z else param.max_res_increase P.
Definition maxResIncreaseTotal : Z := param.max_res_increase_total P.
Definition hqmaxresIncrease : Z := (maxResIncrease + 1)%Z.

(** Unit round-off of a precision given in bytes. *)
Definition roundoff (prec : Z) : float :=
  if (prec =? 8)%Z then 0x1p-53
  else if (prec =? 4)%Z then 0x1p-24 else 0x1p-13.
Definition u : float := roundoff (param.precision_sloppy P).
Definition uhigh : float := roundoff (param.precision P).
Definition deps : float := sqrt u.
Definition dfac : float := 1.1.

(** Lines 283-323. *)
Definition fused_update (s : st.State) (Ap : Field) : Fused :=
  if param.pipeline P then
    let '(r2, Ap2, pAp, ppnorm) :=
      if alternative_reliable
      then blas.quadrupleCGReduction (st.rSloppy s) Ap (st.p s)
      else (blas.tripleCGReduction (st.rSloppy s) Ap (st.p s), st.ppnorm s) in
    let alpha := r2 / pAp in
    let sigma := alpha * (alpha * Ap2 - pAp) in
    if (sigma <? 0) || (st.steps_since_reliable s =? 0)%Z then
      let '(n, rS) := blas.axpyNorm (- alpha) Ap (st.rSloppy s) in
      {| f_r2_old := r2; f_pAp := pAp; f_ppnorm := ppnorm; f_alpha := alpha;
         f_r2 := n; f_sigma := n; f_breakdown := true; f_rSloppy := rS |}
    else
      {| f_r2_old := r2; f_pAp := pAp; f_ppnorm := ppnorm; f_alpha := alpha;
         f_r2 := sigma; f_sigma := sigma; f_breakdown := false;
         f_rSloppy := st.rSloppy s |}
  else
    let '(pAp, ppnorm) :=
      if alternative_reliable
      then let '(a, _, c) := blas.cDotProductNormA (st.p s) Ap in (a, c)
      else (blas.reDotProduct (st.p s) Ap, st.ppnorm s) in
    let alpha := st.r2 s / pAp in
    let '(cg_norm, rS) := blas.axpyCGNorm (- alpha) Ap (st.rSloppy s) in
    let r2 := Cx.re cg_norm in
    {| f_r2_old := st.r2 s; f_pAp := pAp; f_ppnorm := ppnorm; f_alpha := alpha;
       f_r2 := r2;
       f_sigma := if 0 <=? Cx.im cg_norm then Cx.im cg_norm else r2;
       f_breakdown := false; f_rSloppy := rS |}.

(** Lines 338-343: the classical policy on [maxrx], [maxrr], [delta]. *)
Definition classical_conditions (r2 r0Norm maxrx maxrr delta : float) : Trigger :=
  let rNorm := sqrt r2 in
  let maxrx := if maxrx <? rNorm then rNorm else maxrx in
  let maxrr := if maxrr <? rNorm then rNorm else maxrr in
  let updateX := (rNorm <? delta * r0Norm) && (r0Norm <=? maxrx) in
  {| t_rNorm := rNorm; t_maxrx := maxrx; t_maxrr := maxrr;
     t_updateX := updateX;
     t_updateR := ((rNorm <? delta * maxrr) && (r0Norm <=? maxrr)) || updateX |}.

(** Lines 325-343: the reliable update conditions. *)
Definition reliable_conditions (s : st.State) (r2 r2_old : float) : Trigger :=
  if alternative_reliable then
    let rNorm := sqrt r2 in
    {| t_rNorm := rNorm; t_maxrx := st.maxrx s; t_maxrr := st.maxrr s;
       t_updateX :=
         ((st.d s <=? deps * sqrt r2_old) || (deps * st.r0Norm s <? dfac * st.dinit s))
         && (deps * rNorm <? st.d_new s) && (dfac * st.dinit s <? st.d_new s);
       t_updateR := false |}
  else
    classical_conditions r2 (st.r0Norm s) (st.maxrx s) (st.maxrr s) (st.delta s).

(** Lines 345-351: a reliable update is forced once within tolerance. *)
Definition forced_updateX (s : st.State) (r2 stop : float) (updateX : bool) : bool :=
  let updateX :=
    if Solver.convergence P r2 (st.heavy_quark_res s) stop (param.tol_hq P)
       && (param.tol P <=? param.delta P)
    then true else updateX in
  if use_heavy_quark_res && st.L2breakdown s
     && Solver.convergenceHQ P r2 (st.heavy_quark_res s) stop (param.tol_hq P)
     && (param.tol P <=? param.delta P)
  then true else updateX.

(** Lines 413-429: break-out check on the limit of the precision. *)
Definition break_out_check (sqrt_r2 r0Norm : float) (updateX : bool)
    (resIncrease resIncreaseTotal : Z) (L2breakdown : bool) : BreakOut :=
  if (r0Norm <? sqrt_r2) && updateX then
    let resIncrease := (resIncrease + 1)%Z in
    let resIncreaseTotal := (resIncreaseTotal + 1)%Z in
    if (maxResIncrease <? resIncrease)%Z || (maxResIncreaseTotal <? resIncreaseTotal)%Z then
      if use_heavy_quark_res then
        {| bo_resIncrease := resIncrease; bo_resIncreaseTotal := resIncreaseTotal;
           bo_L2breakdown := true; bo_break := false |}
      else
        {| bo_resIncrease := resIncrease; bo_resIncreaseTotal := resIncreaseTotal;
           bo_L2breakdown := L2breakdown; bo_break := true |}
    else
      {| bo_resIncrease := resIncrease; bo_resIncreaseTotal := resIncreaseTotal;
         bo_L2breakdown := L2breakdown; bo_break := false |}
  else
    {| bo_resIncrease := 0; bo_resIncreaseTotal := resIncreaseTotal;
       bo_L2breakdown := L2breakdown; bo_break := false |}.

(** Lines 430-444: once L2 broke down, turn reliable updates off and
    restart the CG. *)
Definition heavy_quark_restart_check (L2breakdown : bool)
    (delta heavy_quark_res heavy_quark_res_old : float)
    (heavy_quark_restart : bool) (hqresIncrease : Z) : Restart :=
  if use_heavy_quark_res && L2breakdown then
    if heavy_quark_res_old <? heavy_quark_res then
      {| hr_delta := 0; hr_heavy_quark_restart := true;
         hr_hqresIncrease := (hqresIncrease + 1)%Z;
         hr_break := (hqmaxresIncrease <? hqresIncrease + 1)%Z |}
    else
      {| hr_delta := 0; hr_heavy_quark_restart := true;
         hr_hqresIncrease := hqresIncrease; hr_break := false |}
  else
    {| hr_delta := delta; hr_heavy_quark_restart := heavy_quark_restart;
       hr_hqresIncrease := hqresIncrease; hr_break := false |}.

(** Lines 470-481: the convergence test closing an iteration. *)
Definition loop_converged (r2 heavy_quark_res stop : float)
    (L2breakdown : bool) (steps_since_reliable : Z) : bool :=
  if use_heavy_quark_res then
    let L2done := L2breakdown
                  || Solver.convergenceL2 P r2 heavy_quark_res stop (param.tol_hq P) in
    let HQdone := ((steps_since_reliable =? 0)%Z && (0 <? param.delta P))
                  && Solver.convergenceHQ P r2 heavy_quark_res stop (param.tol_hq P) in
    L2done && HQdone
  else Solver.convergence P r2 heavy_quark_res stop (param.tol_hq P).

(** Which buffers the sloppy names alias (lines 179-195). *)
Definition r_alias (x : ColorSpinorField) : bool :=
  (param.precision_sloppy P =? Precision x)%Z.
Definition x_alias (x : ColorSpinorField) : bool :=
  (param.precision_sloppy P =? Precision x)%Z
  || negb (param.use_sloppy_partial_accumulator P).

Section Iteration.

Variable b : Field.
Variables xalias ralias : bool.
Variables stop Anorm : float.

(** Lines 353-378: no reliable update, the ordinary CG step. [k] is not
    negative, so the truncating [%] of [k % heavy_quark_check] is
    [Z.rem]; a zero [heavy_quark_check] is undefined in the source. *)
Definition no_update (s : st.State) (Ap : Field) (f : Fused) (t : Trigger) : st.State :=
  let beta := f_sigma f / f_r2_old f in
  let '(xS, rS, p) :=
    if param.pipeline P && negb (f_breakdown f)
    then blas.tripleCGUpdate (f_alpha f) beta Ap (st.xSloppy s) (f_rSloppy f) (st.p s)
    else let '(p, xS) :=
           blas.axpyZpbx (f_alpha f) (st.p s) (st.xSloppy s) (f_rSloppy f) beta in
         (xS, f_rSloppy f, p) in
  let x := if xalias then xS else st.x s in
  let r := if ralias then rS else st.r s in
  let check_hq := use_heavy_quark_res && (Z.rem (st.k s) (param.heavy_quark_check P) =? 0)%Z in
  let r := if check_hq && xalias then rS else r in
  let heavy_quark_res :=
    if check_hq then
      if xalias then sqrt (xpyHeavyQuarkResidualNorm h x (st.y s) r)
      else sqrt (xpyHeavyQuarkResidualNorm h xS (st.y s) rS)
    else st.heavy_quark_res s in
  let d := if alternative_reliable then st.d_new s else st.d s in
  let pnorm := if alternative_reliable
               then st.pnorm s + f_alpha f * f_alpha f * f_ppnorm f else st.pnorm s in
  let xnorm := if alternative_reliable then sqrt pnorm else st.xnorm s in
  let d_new := if alternative_reliable
               then d + u * t_rNorm t + uhigh * Anorm * xnorm else st.d_new s in
  {| st.x := x; st.y := st.y s; st.r := r;
     st.xSloppy := xS; st.rSloppy := rS; st.p := p; st.Ap := Ap;
     st.r2 := f_r2 f; st.r2_old := f_r2_old f; st.pAp := f_pAp f;
     st.alpha := f_alpha f; st.beta := beta;
     st.rNorm := t_rNorm t; st.r0Norm := st.r0Norm s;
     st.maxrx := t_maxrx t; st.maxrr := t_maxrr t; st.delta := st.delta s;
     st.heavy_quark_res := heavy_quark_res;
     st.heavy_quark_res_old := st.heavy_quark_res_old s;
     st.d := d; st.d_new := d_new; st.dinit := st.dinit s;
     st.xnorm := xnorm; st.pnorm := pnorm; st.ppnorm := f_ppnorm f;
     st.k := st.k s; st.rUpdate := st.rUpdate s;
     st.steps_since_reliable := (st.steps_since_reliable s + 1)%Z;
     st.resIncrease := st.resIncrease s;
     st.resIncreaseTotal := st.resIncreaseTotal s;
     st.hqresIncrease := st.hqresIncrease s;
     st.L2breakdown := st.L2breakdown s;
     st.heavy_quark_restart := st.heavy_quark_restart s;
     st.converged := st.converged s;
     st.applications := (st.applications s + 1)%Z |}.

(** Lines 380-465: the reliable update. The residual is replaced by
    [b - A y] in reference precision, then the break-out checks run. *)
Definition reliable_update (s : st.State) (Ap : Field) (f : Fused) (t : Trigger)
    (updateX : bool) : Step :=
  let xS := blas.axpy (f_alpha f) (st.p s) (st.xSloppy s) in
  let x := xS in
  let y := blas.xpy x (st.y s) in
  let r := mat h y in
  let x := mat_scratch h y x in
  let xS := if xalias then x else xS in
  let '(r2, r) := blas.xmyNorm b r in
  let rS := r in
  let xS := blas.zero xS in
  let x := if xalias then xS else x in
  let dinit := if alternative_reliable
               then uhigh * (sqrt r2 + Anorm * sqrt (blas.norm2 y)) else st.dinit s in
  let d := if alternative_reliable then st.d_new s else st.d s in
  let xnorm := if alternative_reliable then 0 else st.xnorm s in
  let pnorm := if alternative_reliable then 0 else st.pnorm s in
  let d_new := if alternative_reliable then dinit else st.d_new s in
  let rNorm := if alternative_reliable then t_rNorm t else sqrt r2 in
  let maxrr := if alternative_reliable then t_maxrr t else rNorm in
  let maxrx := if alternative_reliable then t_maxrx t else rNorm in
  let r0Norm := if alternative_reliable then sqrt r2 else rNorm in
  let heavy_quark_res :=
    if use_heavy_quark_res then sqrt (HeavyQuarkResidualNorm h y r)
    else st.heavy_quark_res s in
  let bo := break_out_check (sqrt r2) r0Norm updateX
              (st.resIncrease s) (st.resIncreaseTotal s) (st.L2breakdown s) in
  let hr := heavy_quark_restart_check (bo_L2breakdown bo) (st.delta s)
              heavy_quark_res (st.heavy_quark_res_old s)
              (st.heavy_quark_restart s) (st.hqresIncrease s) in
  let at_point (p : Field) (beta delta heavy_quark_res_old : float)
               (restart : bool) (hqresIncrease steps rUpdate : Z) : st.State :=
    {| st.x := x; st.y := y; st.r := r;
       st.xSloppy := xS; st.rSloppy := rS; st.p := p; st.Ap := Ap;
       st.r2 := r2; st.r2_old := f_r2_old f; st.pAp := f_pAp f;
       st.alpha := f_alpha f; st.beta := beta;
       st.rNorm := rNorm; st.r0Norm := r0Norm;
       st.maxrx := maxrx; st.maxrr := maxrr; st.delta := delta;
       st.heavy_quark_res := heavy_quark_res;
       st.heavy_quark_res_old := heavy_quark_res_old;
       st.d := d; st.d_new := d_new; st.dinit := dinit;
       st.xnorm := xnorm; st.pnorm := pnorm; st.ppnorm := f_ppnorm f;
       st.k := st.k s; st.rUpdate := rUpdate;
       st.steps_since_reliable := steps;
       st.resIncrease := bo_resIncrease bo;
       st.resIncreaseTotal := bo_resIncreaseTotal bo;
       st.hqresIncrease := hqresIncrease;
       st.L2breakdown := bo_L2breakdown bo;
       st.heavy_quark_restart := restart;
       st.converged := st.converged s;
       st.applications := (st.applications s + 2)%Z |} in
  if bo_break bo then
    Break (at_point (st.p s) (st.beta s) (st.delta s) (st.heavy_quark_res_old s)
             (st.heavy_quark_restart s) (st.hqresIncrease s)
             (st.steps_since_reliable s) (st.rUpdate s))
  else if hr_break hr then
    Break (at_point (st.p s) (st.beta s) (hr_delta hr) (st.heavy_quark_res_old s)
             (hr_heavy_quark_restart hr) (hr_hqresIncrease hr)
             (st.steps_since_reliable s) (st.rUpdate s))
  else if use_heavy_quark_res && hr_heavy_quark_restart hr then
    Continue (at_point rS (st.beta s) (hr_delta hr) heavy_quark_res
                false (hr_hqresIncrease hr) 0%Z (st.rUpdate s + 1)%Z)
  else
    let rp := Cx.div_real (blas.cDotProduct rS (st.p s)) r2 in
    let p := blas.caxpy (Cx.opp rp) rS (st.p s) in
    let beta := r2 / f_r2_old f in
    Continue (at_point (blas.xpay rS beta p) beta (hr_delta hr) heavy_quark_res
                (hr_heavy_quark_restart hr) (hr_hqresIncrease hr)
                0%Z (st.rUpdate s + 1)%Z).

(** Lines 467-481: count the iteration and test convergence. *)
Definition close_iteration (s : st.State) : st.State :=
  {| st.x := st.x s; st.y := st.y s; st.r := st.r s;
     st.xSloppy := st.xSloppy s; st.rSloppy := st.rSloppy s;
     st.p := st.p s; st.Ap := st.Ap s;
     st.r2 := st.r2 s; st.r2_old := st.r2_old s; st.pAp := st.pAp s;
     st.alpha := st.alpha s; st.beta := st.beta s;
     st.rNorm := st.rNorm s; st.r0Norm := st.r0Norm s;
     st.maxrx := st.maxrx s; st.maxrr := st.maxrr s; st.delta := st.delta s;
     st.heavy_quark_res := st.heavy_quark_res s;
     st.heavy_quark_res_old := st.heavy_quark_res_old s;
     st.d := st.d s; st.d_new := st.d_new s; st.dinit := st.dinit s;
     st.xnorm := st.xnorm s; st.pnorm := st.pnorm s; st.ppnorm := st.ppnorm s;
     st.k := (st.k s + 1)%Z; st.rUpdate := st.rUpdate s;
     st.steps_since_reliable := st.steps_since_reliable s;
     st.resIncrease := st.resIncrease s;
     st.resIncreaseTotal := st.resIncreaseTotal s;
     st.hqresIncrease := st.hqresIncrease s;
     st.L2breakdown := st.L2breakdown s;
     st.heavy_quark_restart := st.heavy_quark_restart s;
     st.converged := loop_converged (st.r2 s) (st.heavy_quark_res s) stop
                       (st.L2breakdown s) (st.steps_since_reliable s);
     st.applications := st.applications s |}.

(** The flags an iteration decides on, after the forced updates. *)
Definition update_flags (s : st.State) (f : Fused) : Trigger :=
  let t := reliable_conditions s (f_r2 f) (f_r2_old f) in
  {| t_rNorm := t_rNorm t; t_maxrx := t_maxrx t; t_maxrr := t_maxrr t;
     t_updateX := forced_updateX s (f_r2 f) stop (t_updateX t);
     t_updateR := t_updateR t |}.

(** Lines 279-481: the body of the main loop. *)
Definition iteration (s : st.State) : Step :=
  let Ap := matSloppy h (st.p s) in
  let f := fused_update s Ap in
  let t := update_flags s f in
  if negb (t_updateR t || t_updateX t)
  then Continue (close_iteration (no_update s Ap f t))
  else match reliable_update s Ap f t (t_updateX t) with
       | Continue s' => Continue (close_iteration s')
       | Break s' => Break s'
       end.

(** [while (!converged && k < param.maxiter)]. *)
Definition loop_test (s : st.State) : bool :=
  negb (st.converged s) && (st.k s <? param.maxiter P)%Z.

(** The loop as the source runs it, from the state at its head to the
    state it is left with. *)
Inductive while_loop : st.State -> st.State -> Prop :=
  | while_exit s :
      loop_test s = false -> while_loop s s
  | while_break s s' :
      loop_test s = true -> iteration s = Break s' -> while_loop s s'
  | while_next s s' s'' :
      loop_test s = true -> iteration s = Continue s' ->
      while_loop s' s'' -> while_loop s s''.

(** The loop as a function: it runs at most [maxiter] times, which the
    fuel covers. *)
Fixpoint loop (fuel : nat) (s : st.State) : st.State :=
  match fuel with
  | O => s
  | S fuel' =>
      if loop_test s then
        match iteration s with
        | Continue s' => loop fuel' s'
        | Break s' => s'
        end
      else s
  end.

End Iteration.

(** What the preamble leaves for the loop. *)
Record Setup : Type := {
  su_state : st.State;
  su_b2 : float;
  su_stop : float;
  su_Anorm : float
}.

(** Lines 116-276, past the zero-source test: initial residual,
    aliasing, thresholds and counters. [b2] is [norm2(b)]. *)
Definition setup (x b : ColorSpinorField) (b2 : float) : Setup :=
  let y := blas.zero (data b) in
  let Anorm := if alternative_reliable
               then sqrt (blas.norm2 (mat h (data b)) / b2) else 0 in
  let y := if alternative_reliable then mat_scratch h (data b) y else y in
  let r := mat h (data x) in
  let y := mat_scratch h (data x) y in
  let '(r2, r) := blas.xmyNorm (data b) r in
  let b2 := if b2 =? 0 then r2 else b2 in
  let rS := r in
  let xS := data x in
  let p := rS in
  let y := if x_alias x then blas.zero y else data x in
  let xS := if x_alias x then xS else blas.zero xS in
  let stop := Solver.stopping (param.tol P) b2 (param.residual_type P) in
  let heavy_quark_res :=
    if use_heavy_quark_res then sqrt (HeavyQuarkResidualNorm h (data x) r) else 0 in
  let rNorm := sqrt r2 in
  let dinit := if alternative_reliable then uhigh * (rNorm + Anorm * 0) else 0 in
  {| su_state :=
       {| st.x := data x; st.y := y; st.r := r;
          st.xSloppy := xS; st.rSloppy := rS; st.p := p;
          st.Ap := blas.zero (data x);
          st.r2 := r2; st.r2_old := 0; st.pAp := 0;
          st.alpha := 0; st.beta := 0;
          st.rNorm := rNorm; st.r0Norm := rNorm;
          st.maxrx := rNorm; st.maxrr := rNorm; st.delta := param.delta P;
          st.heavy_quark_res := heavy_quark_res;
          st.heavy_quark_res_old := heavy_quark_res;
          st.d := dinit; st.d_new := 0; st.dinit := dinit;
          st.xnorm := 0; st.pnorm := 0; st.ppnorm := 0;
          st.k := 0; st.rUpdate := 0; st.steps_since_reliable := 1;
          st.resIncrease := 0; st.resIncreaseTotal := 0; st.hqresIncrease := 0;
          st.L2breakdown := false; st.heavy_quark_restart := false;
          st.converged :=
            Solver.convergence P r2 heavy_quark_res stop (param.tol_hq P);
          st.applications := if alternative_reliable then 2 else 1 |};
     su_b2 := b2; su_stop := stop; su_Anorm := Anorm |}.

(** What a call leaves behind: the solution in [x], the parameter
    block, and (ghost) the iterations and operator applications made. *)
Record Result : Type := {
  out_x : Field;
  out_param : SolverParam;
  out_k : Z;
  out_applications : Z
}.

(** Lines 484-520: collect the solution and report. *)
Definition finish (b : Field) (b2 : float) (s : st.State) : Result :=
  let x := blas.xpy (st.y s) (st.xSloppy s) in
  let P' := param.set_iter P (param.iter P + st.k s)%Z in
  if param.compute_true_res P then
    let '(n, r) := blas.xmyNorm b (mat h x) in
    {| out_x := x;
       out_param := param.set_true_res P' (sqrt (n / b2))
                      (sqrt (HeavyQuarkResidualNorm h x r));
       out_k := st.k s;
       out_applications := (st.applications s + 1)%Z |}
  else
    {| out_x := x; out_param := P'; out_k := st.k s;
       out_applications := st.applications s |}.

(** [CG::operator()(x, b)]. *)
Definition solve (x b : ColorSpinorField) : Outcome Result :=
  if negb (on_device x b) then Fatal "Not supported"
  else
    let b2 := blas.norm2 (data b) in
    if (b2 =? 0) && negb (param.compute_null_vector P) then
      Returned {| out_x := data b;
                  out_param := param.set_true_res P 0 0;
                  out_k := 0; out_applications := 0 |}
    else
      let i := setup x b b2 in
      let s := loop (data b) (x_alias x) (r_alias x) (su_stop i) (su_Anorm i)
                 (Z.to_nat (param.maxiter P)) (su_state i) in
      Returned (finish (data b) (su_b2 i) s).

End SingleRHS.
End CG.

(* ================================================================= *)
(** * Block solver: [CG::block_reliable], [CG::solve_n], [CG::solve] *)

Module BlockCG.
Local Open Scope float_scope.

(** Dense [nsrc x nsrc] complex matrices, row major. *)
Definition Matrix : Type := list (list Complex).

Definition entry (C : Matrix) (i j : nat) : Complex :=
  nth j (nth i C []) Cx.zero.

(** [CG::block_reliable]: the by-reference [rNorm], [maxrx], [maxrr] are
    returned next to the flag. *)
Definition block_reliable (rNorm maxrx maxrr r2 delta : float)
  : bool * (float * float * float) :=
  let rNorm := sqrt r2 in
  let maxrx := if maxrx <? rNorm then rNorm else maxrx in
  let maxrr := if maxrr <? rNorm then rNorm else maxrr in
  let updateR := rNorm <? delta * maxrr in
  (updateR, (rNorm, maxrx, maxrr)).

(** Lines 1182-1184: [H(j,j)] accumulated down column [j] of [C]. *)
Definition H_diag (nsrc : nat) (C : Matrix) (j : nat) : Complex :=
  fold_left
    (fun acc i => Cx.add acc (Cx.mul (entry C i j) (Cx.conj (entry C i j))))
    (seq 1 (nsrc - 1))
    (Cx.mul (entry C 0 j) (Cx.conj (entry C 0 j))).

(** The start value of the aggregate under either policy. *)
Definition r2_start (policy_min : bool) : float :=
  if policy_min then 1e30 else 0.

Definition r2_select (policy_min : bool) (r2 h : float) : float :=
  if policy_min then (if h <? r2 then h else r2)
  else (if r2 <? h then h else r2).

Record Residuals : Type := {
  H_real : list float;
  r2avg : float;
  r2 : float
}.

(** Lines 1174-1191: the residuals of all columns, their sum and the
    aggregate the reliable-update test is fed. *)
Definition residuals (policy_min : bool) (nsrc : nat) (C : Matrix) : Residuals :=
  fold_left
    (fun acc j =>
       let hjj := Cx.re (H_diag nsrc C j) in
       {| H_real := H_real acc ++ [hjj];
          r2avg := r2avg acc + hjj;
          r2 := r2_select policy_min (r2 acc) hjj |})
    (seq 0 nsrc)
    {| H_real := []; r2avg := 0; r2 := r2_start policy_min |}.



Section Block.

Variable bld : Build.
Variable h : Host.
Variable P : SolverParam.

(** Lines 916-1541, the BlockCGrQ iteration proper. It runs on the
    dense Cholesky factorisation and inverse of the matrix library and
    on the multi-field kernels, and is a collaborator here. *)
Variable BlockCGrQ : nat -> ColorSpinorField -> ColorSpinorField -> CG.Result.

Definition use_heavy_quark_res : bool :=
  Solver.has_bit (param.residual_type P) QUDA_HEAVY_QUARK_RESIDUAL.

(** Lines 705-716: some source of the block has zero norm. *)
Definition zero_source (nsrc : nat) (b : ColorSpinorField) : bool :=
  existsb (fun i => blas.norm2 (nth i (Components b) []) =? 0) (seq 0 nsrc).

(** [CG::solve_n<nsrc>(x, b)]. *)
Definition solve_n (nsrc : nat) (x b : ColorSpinorField) : Outcome CG.Result :=
  if negb (on_device x b) then Fatal "Not supported"
  else if zero_source nsrc b
  then Fatal "Warning: inverting on zero-field source - undefined for block solver"
  else if use_heavy_quark_res
  then Fatal "ERROR: heavy quark residual not supported in block solver"
  else Returned (BlockCGrQ nsrc x b).

(** The [switch] of [CG::solve] with the checks before it: the
    instance of [solve_n] that is called. *)
Definition dispatch : Outcome nat :=
  if negb (BLOCKSOLVER bld) then Fatal "QUDA_BLOCKSOLVER not built."
  else if (QUDA_MAX_BLOCK_SRC bld <? param.num_src P)%Z
  then Fatal "Requested number of right-hand sides exceeds max"
  else
    match param.num_src P with
    | 1%Z => Returned 1%nat | 2%Z => Returned 2%nat
    | 3%Z => Returned 3%nat | 4%Z => Returned 4%nat
    | 5%Z => Returned 5%nat | 6%Z => Returned 6%nat
    | 7%Z => Returned 7%nat | 8%Z => Returned 8%nat
    | 9%Z => Returned 9%nat | 10%Z => Returned 10%nat
    | 11%Z => Returned 11%nat | 12%Z => Returned 12%nat
    | 13%Z => Returned 13%nat | 14%Z => Returned 14%nat
    | 15%Z => Returned 15%nat | 16%Z => Returned 16%nat
    | 24%Z => Returned 24%nat | 32%Z => Returned 32%nat
    | 48%Z => Returned 48%nat | 64%Z => Returned 64%nat
    | _ => Fatal "Block-CG with dimension not supported"
    end.

(** [CG::solve(x, b)]. *)
Definition solve (x b : ColorSpinorField) : Outcome CG.Result :=
  match dispatch with
  | Fatal msg => Fatal msg
  | Returned nsrc => solve_n nsrc x b
  end.

End Block.

(** The block sizes the dispatcher instantiates. *)
Definition supported_num_src : list Z :=
  [1; 2; 3; 4; 5; 6; 7; 8; 9; 10; 11; 12; 13; 14; 15; 16; 24; 32; 48; 64]%Z.

End BlockCG.

(** Whether an iteration left the loop by [break]. *)
Definition is_break (t : CG.Step) : bool :=
  match t with CG.Break _ => true | CG.Continue _ => false end.

(** Values that are zero with a plus sign, positive, or NaN. *)
Definition nonneg_sf (x : spec_float) : Prop :=
  match x with
  | S754_zero s | S754_infinity s | S754_finite s _ _ => s = false
  | S754_nan => True
  end.

(* ================================================================= *)
(** * Concrete inputs *)

(** Small systems on which the solver is evaluated. *)
Module Scenario.
Local Open Scope float_scope.

Definition real_field (l : list float) : Field := map (fun a => (a, 0)) l.

Definition on_gpu (l : list float) : ColorSpinorField :=
  {| FieldLocation := QUDA_CUDA_FIELD_LOCATION; Precision := 8;
     data := real_field l; Components := [] |}.

Definition block_on_gpu (cols : list (list float)) : ColorSpinorField :=
  {| FieldLocation := QUDA_CUDA_FIELD_LOCATION; Precision := 8;
     data := []; Components := map real_field cols |}.

(** A diagonal operator, Hermitian positive definite for positive
    entries; the heavy-quark kernels report a fixed value [hq]. *)
Definition diagonal (dg : list float) (hq : float) : Host :=
  {| mat := fun v => map2 Cx.scale dg v;
     matSloppy := fun v => map2 Cx.scale dg v;
     mat_scratch := fun _ t => t;
     HeavyQuarkResidualNorm := fun _ _ => hq;
     xpyHeavyQuarkResidualNorm := fun _ _ _ => hq |}.

Definition build (alt policy_min : bool) : Build :=
  {| ALTRELIABLE := alt; BLOCKSOLVER := true;
     BLOCKSOLVER_RELIABLE_POLICY_MIN := policy_min;
     QUDA_MAX_BLOCK_SRC := 64 |}.

(** Uniform double precision, no pipelining. *)
Definition params (delta : float) (residual_type max_res_increase nsrc : Z)
    (null_vector : bool) : SolverParam :=
  {| param.tol := 1e-10; param.tol_hq := 1e-3; param.delta := delta;
     param.residual_type := residual_type; param.maxiter := 100;
     param.max_res_increase := max_res_increase;
     param.max_res_increase_total := 10;
     param.precision := 8; param.precision_sloppy := 8;
     param.use_sloppy_partial_accumulator := false;
     param.pipeline := false; param.compute_true_res := true;
     param.compute_null_vector := null_vector;
     param.num_src := nsrc; param.heavy_quark_check := 10;
     param.true_res := 0; param.true_res_hq := 0; param.iter := 0 |}.

(** A state of the loop given by what the decisions read. *)
Definition state (x y rSloppy p : Field)
    (r2 r0Norm maxrx maxrr delta hq_old : float)
    (resIncrease resIncreaseTotal hqresIncrease : Z)
    (L2breakdown : bool) : st.State :=
  {| st.x := x; st.y := y; st.r := rSloppy;
     st.xSloppy := x; st.rSloppy := rSloppy; st.p := p;
     st.Ap := blas.zero p;
     st.r2 := r2; st.r2_old := r2; st.pAp := 0; st.alpha := 0; st.beta := 0;
     st.rNorm := sqrt r2; st.r0Norm := r0Norm;
     st.maxrx := maxrx; st.maxrr := maxrr; st.delta := delta;
     st.heavy_quark_res := hq_old; st.heavy_quark_res_old := hq_old;
     st.d := 0; st.d_new := 0; st.dinit := 0;
     st.xnorm := 0; st.pnorm := 0; st.ppnorm := 0;
     st.k := 3; st.rUpdate := 1; st.steps_since_reliable := 1;
     st.resIncrease := resIncrease; st.resIncreaseTotal := resIncreaseTotal;
     st.hqresIncrease := hqresIncrease;
     st.L2breakdown := L2breakdown; st.heavy_quark_restart := false;
     st.converged := false; st.applications := 5 |}.

End Scenario.

(* ================================================================= *)
(** * A whole solve, and the states it passes through *)

Module Run.

Section Run.

Variable bld : Build.
Variable h : Host.
Variable P : SolverParam.

(** The state [CG::operator()] leaves its main loop with, for a call
    that gets past the zero-source return. *)
Definition final_state (x b : ColorSpinorField) : st.State :=
  let i := CG.setup bld h P x b (blas.norm2 (data b)) in
  CG.loop bld h P (data b) (CG.x_alias P x) (CG.r_alias P x)
    (CG.su_stop i) (CG.su_Anorm i) (Z.to_nat (param.maxiter P)) (CG.su_state i).

(** What holds of the bookkeeping at the head of every iteration: no
    residual increase was counted, no breakdown flagged, the local
    [delta] is still the configured one, and the operators were applied
    once per iteration and once more per reliable update, after the
    [first] applications of the preamble. *)
Definition steady (first : Z) (s : st.State) : Prop :=
  st.L2breakdown s = false
  /\ st.heavy_quark_restart s = false
  /\ st.resIncrease s = 0%Z
  /\ st.resIncreaseTotal s = 0%Z
  /\ st.hqresIncrease s = 0%Z
  /\ st.delta s = param.delta P
  /\ (0 <= st.rUpdate s <= st.k s)%Z
  /\ (st.k s <= Z.max 0 (param.maxiter P))%Z
  /\ st.applications s = (first + st.k s + st.rUpdate s)%Z.

(** Operator applications of the preamble. *)
Definition first_applications : Z := if ALTRELIABLE bld then 2%Z else 1%Z.

End Run.

End Run.

(* ================================================================= *)
(** * The auxiliary worker of the block solver: [BlockCGUpdate] *)

Module Worker.

(** Modelled from the spec: the block [caxpy] of the kernel interface,
    [y_j <- y_j + sum_i a(i,j) x_i] with [a] row major, taken row by
    row. *)
Definition caxpy (a : BlockCG.Matrix) (x y : list Field) : list Field :=
  fold_left
    (fun y' (ax : list Complex * Field) =>
       map2 (fun aij yj => blas.caxpy aij (snd ax) yj) (fst ax) y')
    (combine a x) y.

(** How much to partition the update: line 611. *)
Definition n_update_of (Nspin : Z) : nat := if (Nspin =? 4)%Z then 4%nat else 2%nat.

(** Lines 629-662: the components of [P] that the call with cursor
    [count] updates with, as first index and length, if any. *)
Definition slice (n_rhs n_update count : nat) : option (nat * nat) :=
  let update_per_apply := (n_rhs / n_update)%nat in
  let update_per_apply_on_last := (n_rhs - n_update * update_per_apply)%nat in
  if (negb (count =? n_update - 1)%nat && negb (update_per_apply =? 0)%nat)
     || (update_per_apply_on_last =? 0)%nat
  then Some ((count * update_per_apply)%nat, update_per_apply)
  else if (count =? n_update - 1)%nat
       then Some ((count * update_per_apply)%nat,
                  (n_rhs - count * update_per_apply)%nat)
       else None.

(** Line 665: [if (++count == n_update) count = 0]. *)
Definition next_count (n_update count : nat) : nat :=
  if (count + 1 =? n_update)%nat then 0%nat else (count + 1)%nat.

(** [BlockCGUpdate::apply]: one call, on the static cursor [count] and
    the sloppy solution; [alpha] is read from its row
    [count * update_per_apply] on. *)
Definition apply (alpha : BlockCG.Matrix) (pp : list Field) (n_update : nat)
    (count : nat) (x_sloppy : list Field) : nat * list Field :=
  let n_rhs := List.length pp in
  (next_count n_update count,
   match slice n_rhs n_update count with
   | Some (start, len) =>
       caxpy (skipn start alpha) (firstn len (skipn start pp)) x_sloppy
   | None => x_sloppy
   end).

(** A run of [calls] calls. *)
Fixpoint applies (alpha : BlockCG.Matrix) (pp : list Field) (n_update : nat)
    (calls : nat) (count : nat) (x_sloppy : list Field) : nat * list Field :=
  match calls with
  | O => (count, x_sloppy)
  | S calls' =>
      let '(count', x') := apply alpha pp n_update count x_sloppy in
      applies alpha pp n_update calls' count' x'
  end.

(** The indices a call covers. *)
Definition covered (n_rhs n_update count : nat) : list nat :=
  match slice n_rhs n_update count with
  | Some (start, len) => seq start len
  | None => []
  end.

End Worker.

(* ================================================================= *)
(** * The block iteration: [CG::solve_n] past its checks *)

Module BCGrQ.
Local Open Scope float_scope.

(** What the block iteration calls and the solver's file does not
    hold: the operator on composite fields in its two precisions, the
    dense-matrix library ([llt().matrixL()], [adjoint], [inverse],
    product and negation) and the multi-field kernels. [caxpy_U] reads
    the field it adds to, [caxpyz_L] is given the field it writes. *)
Record Kernels : Type := {
  mat : list Field -> list Field;
  matSloppy : list Field -> list Field;
  llt_matrixL : BlockCG.Matrix -> BlockCG.Matrix;
  adjoint : BlockCG.Matrix -> BlockCG.Matrix;
  inverse : BlockCG.Matrix -> BlockCG.Matrix;
  product : BlockCG.Matrix -> BlockCG.Matrix -> BlockCG.Matrix;
  negate : BlockCG.Matrix -> BlockCG.Matrix;
  hDotProduct : list Field -> list Field -> BlockCG.Matrix;
  hDotProduct_Anorm : list Field -> list Field -> BlockCG.Matrix;
  caxpy_U : BlockCG.Matrix -> list Field -> list Field -> list Field;
  caxpyz_L : BlockCG.Matrix -> list Field -> list Field -> list Field -> list Field;
  HeavyQuarkResidualNorm : Field -> Field -> float
}.

(** What outlives a call: of the solver's members, the [init] flag and
    the two fields that a call reads before it writes them; and the
    [static int count] of the worker. *)
Record Members : Type := {
  init : bool;
  x_sloppy_savedp : list Field;
  qp_member : list Field;
  worker_count : nat
}.

(** The locals and fields that live across iterations. [Hd] holds the
    real parts of the diagonal of [H], all that is read of [H] after it
    was factorised. [updates] and [steps] are ghost: the block [caxpy]s
    made on [x_sloppy], as matrix and field block, a cycle of the worker
    counting for one; and each iteration's [alpha] with the [P] it was
    computed for. *)
Record State : Type := {
  x_sloppy : list Field; y : list Field; r : list Field;
  pp : list Field; qp : list Field; tmpp : list Field;
  alpha : BlockCG.Matrix; C : BlockCG.Matrix;
  Hd : list float;
  rNorm : float; maxrx : float; maxrr : float;
  k : Z; rUpdate : Z;
  just_reliable_updated : bool; allconverged : bool;
  count : nat;
  updates : list (BlockCG.Matrix * list Field);
  steps : list (BlockCG.Matrix * list Field)
}.

(** What a call leaves behind. [out_true_res_offset] and
    [out_true_res_hq_offset] list the entries written of
    [param.true_res_offset] and [param.true_res_hq_offset]. *)
Record Result : Type := {
  out_x : list Field;
  out_param : SolverParam;
  out_true_res_offset : list float;
  out_true_res_hq_offset : list float;
  out_k : Z;
  out_rUpdate : Z;
  out_members : Members;
  out_updates : list (BlockCG.Matrix * list Field);
  out_steps : list (BlockCG.Matrix * list Field)
}.

(** Modelled from the spec: [xpy], [xpay] and [zero] on composite
    fields, component by component. *)
Definition xpy (x y : list Field) : list Field := map2 blas.xpy x y.
Definition xpay (x : list Field) (a : float) (y : list Field) : list Field :=
  map2 (fun xi yi => blas.xpay xi a yi) x y.
Definition zero (x : list Field) : list Field := map blas.zero x.

Section Block.

Variable bld : Build.
Variable kn : Kernels.
Variable P : SolverParam.
Variable nsrc : nat.

(** [x_sloppy->Nspin()], and what the array [alpha_raw] of line 800
    holds when the loop is entered: its elements as they were
    constructed. *)
Variable Nspin : Z.
Variable alpha_raw0 : BlockCG.Matrix.

Variable b : list Field.

Definition policy_min : bool := BLOCKSOLVER_RELIABLE_POLICY_MIN bld.
Definition n_update : nat := Worker.n_update_of Nspin.

(** Lines 703-707 and 927-931. *)
Definition b2 (i : nat) : float := blas.norm2 (nth i b []).
Definition stop (i : nat) : float :=
  Solver.stopping (param.tol P) (b2 i) (param.residual_type P).

Definition diagonal_real (H : BlockCG.Matrix) : list float :=
  map (fun i => Cx.re (BlockCG.entry H i i)) (seq 0 nsrc).

(** Lines 946-950, 1314-1317 and 1450-1454. *)
Definition all_converged (Hd : list float) : bool :=
  fold_left
    (fun acc i =>
       acc && Solver.convergence P (nth i Hd 0) 0 (stop i) (param.tol_hq P))
    (seq 0 nsrc) true.

(** Lines 939-956 and 1309-1323: [rNorm] over the columns. *)
Definition rNorm_of (Hd : list float) : float :=
  fold_left
    (fun rN i => BlockCG.r2_select policy_min rN (sqrt (nth i Hd 0)))
    (seq 0 nsrc) (BlockCG.r2_start policy_min).

(** Line 776: [x_sloppy] is [x] itself. *)
Definition aliased (x : ColorSpinorField) : bool :=
  (param.precision_sloppy P =? Precision x)%Z
  || negb (param.use_sloppy_partial_accumulator P).

(** Lines 727-742: the fields a first call creates are zero. *)
Definition member_field (m : Members) (x : ColorSpinorField)
    (f : list Field) : list Field :=
  if init m then f else zero (Components x).

(** Lines 718-1023. *)
Definition setup (m : Members) (x : ColorSpinorField) : State :=
  let r := xpay b (-1) (mat kn (Components x)) in
  let y := Components x in
  let x_sloppy :=
    if aliased x then zero (Components x)
    else member_field m x (x_sloppy_savedp m) in
  let H := hDotProduct kn r r in
  let Hd := diagonal_real H in
  let rNorm := rNorm_of Hd in
  let L := llt_matrixL kn H in
  let C := adjoint kn L in
  let Linv := inverse kn C in
  let tmpp := r in
  let qp := caxpy_U kn Linv tmpp (member_field m x (qp_member m)) in
  {| x_sloppy := x_sloppy; y := y; r := r;
     pp := qp; qp := qp; tmpp := tmpp;
     alpha := alpha_raw0; C := C; Hd := Hd;
     rNorm := rNorm; maxrx := rNorm; maxrr := rNorm;
     k := 0; rUpdate := 0;
     just_reliable_updated := false;
     allconverged := all_converged Hd;
     count := worker_count m;
     updates := []; steps := [] |}.

(** Lines 1347-1454: the new [P], the pointer swap, and the convergence
    check, on what the iteration made of the other fields. *)
Definition close_iteration (s : State) (count' : nat) (alpha' : BlockCG.Matrix)
    (x_sloppy' y' r' qp' tmpp' : list Field) (C' S : BlockCG.Matrix)
    (Hd' : list float) (rNorm' maxrx' maxrr' : float) (rUpdate' : Z)
    (just_reliable_updated' : bool)
    (updates' : list (BlockCG.Matrix * list Field)) : State :=
  let Sdagger := adjoint kn S in
  let tmpp'' := caxpyz_L kn Sdagger (pp s) qp' tmpp' in
  {| x_sloppy := x_sloppy'; y := y'; r := r';
     pp := tmpp''; qp := qp'; tmpp := pp s;
     alpha := alpha'; C := C'; Hd := Hd';
     rNorm := rNorm'; maxrx := maxrx'; maxrr := maxrr';
     k := k s + 1; rUpdate := rUpdate';
     just_reliable_updated := just_reliable_updated';
     allconverged := all_converged Hd';
     count := count';
     updates := updates'; steps := steps s ++ [(alpha', pp s)] |}.

(** Lines 1031-1039: the worker is handed to the operator. *)
Definition worker_on (s : State) : bool :=
  (0 <? k s)%Z && negb (just_reliable_updated s).

(** One pass of the loop body, lines 1025-1456. Modelled from the spec:
    with the worker installed the operator calls it [n_update] times
    before it returns. *)
Definition iteration (s : State) : State :=
  let just_reliable_updated1 :=
    if worker_on s then just_reliable_updated s else false in
  let '(count1, x1) :=
    if worker_on s
    then Worker.applies (alpha s) (tmpp s) n_update n_update (count s) (x_sloppy s)
    else (count s, x_sloppy s) in
  let updates1 :=
    if worker_on s then updates s ++ [(alpha s, tmpp s)] else updates s in
  let Ap := matSloppy kn (pp s) in
  let pAp := hDotProduct_Anorm kn (pp s) Ap in
  let beta := negate kn (inverse kn pAp) in
  let alpha1 := negate kn (product kn beta (C s)) in
  let q1 := Worker.caxpy beta Ap (qp s) in
  let H := hDotProduct kn q1 q1 in
  let L := llt_matrixL kn H in
  let S := adjoint kn L in
  let Linv := inverse kn S in
  let t1 := caxpy_U kn Linv q1 (zero (zero (tmpp s))) in
  (* std::swap(qp, tmpp) *)
  let q2 := t1 in
  let t2 := q1 in
  let C_old := C s in
  let C1 := product kn S (C s) in
  let res := BlockCG.residuals policy_min nsrc C1 in
  let '(updateR, (rNorm1, maxrx1, maxrr1)) :=
    BlockCG.block_reliable (rNorm s) (maxrx s) (maxrr s) (BlockCG.r2 res)
      (param.delta P) in
  if updateR then
    let x2 := Worker.caxpy alpha1 (pp s) x1 in
    let updates2 := updates1 ++ [(alpha1, pp s)] in
    let y1 := xpy x2 (y s) in
    let r1 := xpay b (-1) (mat kn y1) in
    let x3 := zero x2 in
    let H := hDotProduct kn r1 r1 in
    let L := llt_matrixL kn H in
    let C2 := adjoint kn L in
    let Linv := inverse kn C2 in
    let t3 := r1 in
    let q3 := caxpy_U kn Linv t3 (zero q2) in
    let S := product kn C2 (inverse kn C_old) in
    let Hd2 := diagonal_real H in
    let rNorm2 := rNorm_of Hd2 in
    close_iteration s count1 alpha1 x3 y1 r1 q3 t3 C2 S Hd2
      rNorm2 rNorm2 rNorm2 (rUpdate s + 1) true updates2
  else
    close_iteration s count1 alpha1 x1 (y s) (r s) q2 t2 C1 S
      (BlockCG.H_real res) rNorm1 maxrx1 maxrr1 (rUpdate s)
      just_reliable_updated1 updates1.

(** Line 1024. *)
Definition loop_test (s : State) : bool :=
  negb (allconverged s) && (k s <? param.maxiter P)%Z.

Fixpoint loop (fuel : nat) (s : State) : State :=
  match fuel with
  | O => s
  | S fuel' => if loop_test s then loop fuel' (iteration s) else s
  end.

(** The loop as the relation of a state to the state it is left
    with. *)
Inductive while_loop : State -> State -> Prop :=
  | while_done (s : State) : loop_test s = false -> while_loop s s
  | while_step (s s' : State) :
      loop_test s = true -> while_loop (iteration s) s' -> while_loop s s'.

(** Lines 1467-1480: the update that was left for the next operator
    application. *)
Definition flush (s : State) : State :=
  if just_reliable_updated s then s
  else
    {| x_sloppy := Worker.caxpy (alpha s) (tmpp s) (x_sloppy s);
       y := y s; r := r s; pp := pp s; qp := qp s; tmpp := tmpp s;
       alpha := alpha s; C := C s; Hd := Hd s;
       rNorm := rNorm s; maxrx := maxrx s; maxrr := maxrr s;
       k := k s; rUpdate := rUpdate s;
       just_reliable_updated := just_reliable_updated s;
       allconverged := allconverged s;
       count := count s;
       updates := updates s ++ [(alpha s, tmpp s)]; steps := steps s |}.

(** Lines 1511-1520: the true residuals of the columns. *)
Definition true_res_of (x rx : list Field) (i : nat) : float :=
  sqrt (fst (blas.xmyNorm (nth i b []) (nth i rx [])) / b2 i).
Definition true_res_hq_of (x rx : list Field) (i : nat) : float :=
  sqrt (HeavyQuarkResidualNorm kn (nth i x []) (snd (blas.xmyNorm (nth i b []) (nth i rx [])))).

(** Lines 1482-1541. *)
Definition finish (m : Members) (x : ColorSpinorField) (s : State) : Result :=
  let s := flush s in
  let y := xpy (x_sloppy s) (y s) in
  let x' := y in
  let P1 := param.set_iter P (param.iter P + k s)%Z in
  let rx := mat kn x' in
  let written := if param.compute_true_res P then seq 0 nsrc else [] in
  {| out_x := x';
     out_param :=
       fold_left
         (fun P' i => param.set_true_res P' (true_res_of x' rx i) (true_res_hq_of x' rx i))
         written P1;
     out_true_res_offset := map (true_res_of x' rx) written;
     out_true_res_hq_offset := map (true_res_hq_of x' rx) written;
     out_k := k s;
     out_rUpdate := rUpdate s;
     out_members :=
       {| init := true;
          x_sloppy_savedp :=
            if aliased x then member_field m x (x_sloppy_savedp m) else x_sloppy s;
          qp_member := qp s;
          worker_count := count s |};
     out_updates := updates s;
     out_steps := steps s |}.

(** The state the loop is left with. *)
Definition final_state (m : Members) (x : ColorSpinorField) : State :=
  loop (Z.to_nat (param.maxiter P)) (setup m x).

(** The iteration of a call that is past the checks of lines 697-716
    and 912-914. *)
Definition run (m : Members) (x : ColorSpinorField) : Result :=
  finish m x (final_state m x).

(** An update is outstanding: computed, and not yet made on
    [x_sloppy]. *)
Definition pending (s : State) : list (BlockCG.Matrix * list Field) :=
  if worker_on s then [(alpha s, tmpp s)] else [].


End Block.

End BCGrQ.

(* ================================================================= *)
(** * Concrete inputs of the block iteration *)

Module BlockScenario.
Local Open Scope float_scope.

Definition lift (f : Complex -> Complex) (M : BlockCG.Matrix) : BlockCG.Matrix :=
  map (map f) M.

Definition gram (x y : list Field) : BlockCG.Matrix :=
  map (fun xi => map (fun yj => blas.cDotProduct xi yj) y) x.

(** A block of one source on a diagonal operator: the dense-matrix
    library on 1x1 matrices, the triangular kernels as the full ones. *)
Definition kernels (dg : list float) : BCGrQ.Kernels :=
  {| BCGrQ.mat := map (fun v => map2 Cx.scale dg v);
     BCGrQ.matSloppy := map (fun v => map2 Cx.scale dg v);
     BCGrQ.llt_matrixL := lift (fun z => (sqrt (Cx.re z), 0));
     BCGrQ.adjoint := lift Cx.conj;
     BCGrQ.inverse := lift (fun z => Cx.div_real (Cx.conj z) (Cx.norm z));
     BCGrQ.product :=
       fun A B => [[Cx.mul (BlockCG.entry A 0 0) (BlockCG.entry B 0 0)]];
     BCGrQ.negate := lift Cx.opp;
     BCGrQ.hDotProduct := gram;
     BCGrQ.hDotProduct_Anorm := gram;
     BCGrQ.caxpy_U := Worker.caxpy;
     BCGrQ.caxpyz_L := fun a x y _ => Worker.caxpy a x y;
     BCGrQ.HeavyQuarkResidualNorm := fun _ _ => 0 |}.

(** A solver object before its first call. *)
Definition fresh : BCGrQ.Members :=
  {| BCGrQ.init := false; BCGrQ.x_sloppy_savedp := [];
     BCGrQ.qp_member := []; BCGrQ.worker_count := 0 |}.

(** The parameters of [Scenario.params] with tolerance [tol] and at
    most [maxiter] iterations. *)
Definition params (tol delta : float) (maxiter : Z) : SolverParam :=
  {| param.tol := tol; param.tol_hq := 1e-3; param.delta := delta;
     param.residual_type := QUDA_L2_RELATIVE_RESIDUAL; param.maxiter := maxiter;
     param.max_res_increase := 1;
     param.max_res_increase_total := 10;
     param.precision := 8; param.precision_sloppy := 8;
     param.use_sloppy_partial_accumulator := false;
     param.pipeline := false; param.compute_true_res := true;
     param.compute_null_vector := false;
     param.num_src := 1; param.heavy_quark_check := 10;
     param.true_res := 0; param.true_res_hq := 0; param.iter := 0 |}.

Definition source : list Field := [Scenario.real_field [1; 1; 1; 1]].

(** The exact solution is [(1, 1/2, 1/3, 1/4)]; this guess is within
    the tolerance [1/2]. *)
Definition near_guess : ColorSpinorField :=
  Scenario.block_on_gpu [[0.75; 0.5; 0.25; 0.25]].
Definition zero_guess : ColorSpinorField :=
  Scenario.block_on_gpu [[0; 0; 0; 0]].


Definition run (tol delta : float) (maxiter : Z) (alpha_raw0 : float)
    (m : BCGrQ.Members) (x : ColorSpinorField) : BCGrQ.Result :=
  BCGrQ.run (Scenario.build false false) (kernels [1; 2; 3; 4])
    (params tol delta maxiter) 1 4 [[(alpha_raw0, 0)]] source m x.

End BlockScenario.

(* ================================================================= *)
(** * The order of binary64 values *)

Lemma SFcompare_rank (x y : spec_float) :
  SFcompare x y = Double.rank_compare x y.
Proof.
  destruct x as [sx|sx| |sx mx ex], y as [sy|sy| |sy my ey];
    try destruct sx; try destruct sy; try reflexivity.
  unfold Double.rank_compare; cbn [Double.rank SFcompare Double.lex3].
  change (-1 ?= -1) with Eq; cbv iota.
  rewrite Z.compare_opp, (Z.compare_antisym ex ey).
  destruct (ex ?= ey); reflexivity.
Qed.

Lemma lex3_refl a : Double.lex3 a a = Eq.
Proof.
  destruct a as [[a1 a2] a3]; unfold Double.lex3.
  now rewrite !Z.compare_refl.
Qed.

Lemma lex3_antisym a b : Double.lex3 b a = CompOpp (Double.lex3 a b).
Proof.
  destruct a as [[a1 a2] a3], b as [[b1 b2] b3]; unfold Double.lex3.
  rewrite (Z.compare_antisym a1 b1), (Z.compare_antisym a2 b2),
    (Z.compare_antisym a3 b3).
  destruct (a1 ?= b1), (a2 ?= b2), (a3 ?= b3); reflexivity.
Qed.

Ltac lex3_cases :=
  repeat match goal with
  | |- context [(?a ?= ?b)%Z] => destruct (Z.compare_spec a b)
  | H : context [(?a ?= ?b)%Z] |- _ => destruct (Z.compare_spec a b)
  end; subst; try discriminate; try reflexivity; try lia.

Lemma lex3_le_lt_trans a b c :
  Double.lex3 a b <> Gt -> Double.lex3 b c = Lt -> Double.lex3 a c = Lt.
Proof.
  destruct a as [[a1 a2] a3], b as [[b1 b2] b3], c as [[c1 c2] c3];
    unfold Double.lex3; intros Hab Hbc.
  lex3_cases; try (exfalso; apply Hab; reflexivity).
Qed.

Lemma lex3_le_trans a b c :
  Double.lex3 a b <> Gt -> Double.lex3 b c <> Gt -> Double.lex3 a c <> Gt.
Proof.
  destruct a as [[a1 a2] a3], b as [[b1 b2] b3], c as [[c1 c2] c3];
    unfold Double.lex3; intros Hab Hbc.
  lex3_cases; try (exfalso; apply Hab; reflexivity);
    try (exfalso; apply Hbc; reflexivity).
Qed.

Section DoubleOrder.
Local Open Scope float_scope.

Lemma ltb_rank (x y : float) :
  (x <? y) = match Double.rank_compare (Prim2SF x) (Prim2SF y) with
             | Some Lt => true
             | _ => false
             end.
Proof. rewrite ltb_spec; unfold SFltb; now rewrite SFcompare_rank. Qed.

Lemma leb_rank (x y : float) :
  (x <=? y) = match Double.rank_compare (Prim2SF x) (Prim2SF y) with
              | Some (Lt | Eq) => true
              | _ => false
              end.
Proof. rewrite leb_spec; unfold SFleb; now rewrite SFcompare_rank. Qed.

Lemma is_nan_rank (x : float) :
  is_nan x = false <-> Double.rank (Prim2SF x) <> None.
Proof.
  unfold is_nan; rewrite eqb_spec; unfold SFeqb; rewrite SFcompare_rank.
  unfold Double.rank_compare.
  destruct (Double.rank (Prim2SF x)) as [a|].
  - rewrite lex3_refl; split; [discriminate | reflexivity].
  - split; [discriminate | intros H; now elim H].
Qed.

Lemma ltb_irrefl (x : float) : (x <? x) = false.
Proof.
  rewrite ltb_rank; unfold Double.rank_compare.
  destruct (Double.rank (Prim2SF x)); [now rewrite lex3_refl | reflexivity].
Qed.

Lemma leb_refl (x : float) : is_nan x = false -> (x <=? x) = true.
Proof.
  rewrite is_nan_rank, leb_rank; unfold Double.rank_compare.
  destruct (Double.rank (Prim2SF x)); [now rewrite lex3_refl | now intros H].
Qed.

Lemma ltb_leb (x y : float) : (x <? y) = true -> (x <=? y) = true.
Proof.
  rewrite ltb_rank, leb_rank.
  destruct (Double.rank_compare _ _) as [[]|]; easy.
Qed.

Lemma ltb_false_leb (x y : float) :
  is_nan x = false -> is_nan y = false -> (x <? y) = false -> (y <=? x) = true.
Proof.
  rewrite !is_nan_rank, ltb_rank, leb_rank; unfold Double.rank_compare.
  destruct (Double.rank (Prim2SF x)) as [a|], (Double.rank (Prim2SF y)) as [b|];
    try easy.
  intros _ _; rewrite (lex3_antisym a b).
  destruct (Double.lex3 a b); easy.
Qed.

Lemma leb_false_ltb (x y : float) :
  is_nan x = false -> is_nan y = false -> (x <=? y) = false -> (y <? x) = true.
Proof.
  rewrite !is_nan_rank, ltb_rank, leb_rank; unfold Double.rank_compare.
  destruct (Double.rank (Prim2SF x)) as [a|], (Double.rank (Prim2SF y)) as [b|];
    try easy.
  intros _ _; rewrite (lex3_antisym a b).
  destruct (Double.lex3 a b); easy.
Qed.


Lemma leb_not_nan (x y : float) :
  (x <=? y) = true -> is_nan x = false /\ is_nan y = false.
Proof.
  rewrite !is_nan_rank, leb_rank; unfold Double.rank_compare.
  destruct (Double.rank (Prim2SF x)), (Double.rank (Prim2SF y)); easy.
Qed.

Lemma leb_ltb_trans (x y z : float) :
  (x <=? y) = true -> (y <? z) = true -> (x <? z) = true.
Proof.
  rewrite !ltb_rank, leb_rank; unfold Double.rank_compare.
  destruct (Double.rank (Prim2SF x)) as [a|], (Double.rank (Prim2SF y)) as [b|],
    (Double.rank (Prim2SF z)) as [c|]; try easy.
  intros Hab Hbc.
  rewrite (lex3_le_lt_trans a b c); [reflexivity | | ].
  - destruct (Double.lex3 a b); easy.
  - destruct (Double.lex3 b c); easy.
Qed.

Lemma leb_trans (x y z : float) :
  (x <=? y) = true -> (y <=? z) = true -> (x <=? z) = true.
Proof.
  rewrite !leb_rank; unfold Double.rank_compare.
  destruct (Double.rank (Prim2SF x)) as [a|], (Double.rank (Prim2SF y)) as [b|],
    (Double.rank (Prim2SF z)) as [c|]; try easy.
  intros Hab Hbc.
  assert (H : Double.lex3 a c <> Gt).
  { apply (lex3_le_trans a b c).
    - destruct (Double.lex3 a b); easy.
    - destruct (Double.lex3 b c); easy. }
  destruct (Double.lex3 a c); easy.
Qed.



End DoubleOrder.

Lemma max_ge_l (a b : float) :
  is_nan a = false -> is_nan b = false -> (a <=? Double.max a b)%float = true.
Proof.
  intros Ha Hb; unfold Double.max.
  destruct (a <? b)%float eqn:E; [now apply ltb_leb | now apply leb_refl].
Qed.

Lemma max_ge_r (a b : float) :
  is_nan a = false -> is_nan b = false -> (b <=? Double.max a b)%float = true.
Proof.
  intros Ha Hb; unfold Double.max.
  destruct (a <? b)%float eqn:E; [now apply leb_refl | now apply ltb_false_leb].
Qed.





Local Open Scope float_scope.

(** Two floats that the comparison tells apart are different. *)
Lemma eqb_false_neq (a b : float) :
  (a =? a)%float = true -> (a =? b)%float = false -> a <> b.
Proof. intros Ha Hab E; rewrite <- E in Hab; congruence. Qed.

(* ================================================================= *)
(** * The classical reliable-update trigger *)

Section ClassicalTrigger.
Local Open Scope float_scope.

Variable bld : Build.
Variable P : SolverParam.

(** C5: under the classical policy the iteration sets [rNorm] to the
    square root of [r2], raises [maxrx] and [maxrr] to at least [rNorm],
    and computes [updateX = (rNorm < delta * r0Norm) && (r0Norm <= maxrx)]
    and [updateR = ((rNorm < delta * maxrr) && (r0Norm <= maxrr)) || updateX]
    on the raised values. *)
Theorem classical_trigger_flags (s : st.State) (r2 r2_old : float) :
  ALTRELIABLE bld = false ->
  let t := CG.reliable_conditions bld P s r2 r2_old in
  let rNorm := sqrt r2 in
  CG.t_rNorm t = rNorm
  /\ CG.t_maxrx t = Double.max (st.maxrx s) rNorm
  /\ CG.t_maxrr t = Double.max (st.maxrr s) rNorm
  /\ (is_nan rNorm = false -> is_nan (st.maxrx s) = false ->
      (rNorm <=? CG.t_maxrx t) = true)
  /\ (is_nan rNorm = false -> is_nan (st.maxrr s) = false ->
      (rNorm <=? CG.t_maxrr t) = true)
  /\ CG.t_updateX t
     = (rNorm <? st.delta s * st.r0Norm s) && (st.r0Norm s <=? CG.t_maxrx t)
  /\ CG.t_updateR t
     = ((rNorm <? st.delta s * CG.t_maxrr t) && (st.r0Norm s <=? CG.t_maxrr t))
       || CG.t_updateX t.
Proof.
  intros Halt t rNorm; subst t rNorm.
  unfold CG.reliable_conditions, CG.alternative_reliable; rewrite Halt.
  unfold CG.classical_conditions; cbn [CG.t_rNorm CG.t_maxrx CG.t_maxrr
    CG.t_updateX CG.t_updateR].
  repeat split; try reflexivity.
  - intros Hr Hm; now apply max_ge_r.
  - intros Hr Hm; now apply max_ge_r.
Qed.

End ClassicalTrigger.

(** The trigger on a state whose residual dropped from norm 4 to 1. *)
Lemma classical_trigger_flags_witness :
  ALTRELIABLE (Scenario.build false false) = false
  /\ CG.t_updateX
       (CG.reliable_conditions (Scenario.build false false)
          (Scenario.params 0.5 1 1 1 false)
          (Scenario.state [] [] [] [] 16 4 4 4 0.5 0 0 0 0 false) 1 16) = true.
Proof.
  split; [reflexivity|].
  rewrite (proj1 (proj2 (proj2 (proj2 (proj2 (proj2
    (classical_trigger_flags (Scenario.build false false)
       (Scenario.params 0.5 1 1 1 false)
       (Scenario.state [] [] [] [] 16 4 4 4 0.5 0 0 0 0 false) 1 16
       eq_refl))))))).
  rewrite (proj1 (proj2 (classical_trigger_flags (Scenario.build false false)
       (Scenario.params 0.5 1 1 1 false)
       (Scenario.state [] [] [] [] 16 4 4 4 0.5 0 0 0 0 false) 1 16
       eq_refl))).
  vm_compute; reflexivity.
Defined.

(* ================================================================= *)
(** * The alternative beta *)

Section AlternativeBeta.
Local Open Scope float_scope.

Variable bld : Build.
Variable P : SolverParam.

(** C2, amended: without pipelining, after the fused update
    [r <- r - alpha Ap] by [axpyCGNorm], [r2] is the new squared residual
    norm and [sigma] is the cross term [<r_new, r_new - r_old>] when that
    is not negative, and [r2] otherwise. *)
Theorem sigma_is_guarded_cross_term (s : st.State) (Ap : Field) :
  param.pipeline P = false ->
  let f := CG.fused_update bld P s Ap in
  let r_old := st.rSloppy s in
  let r_new := blas.axpy (- CG.f_alpha f) Ap r_old in
  let cross := blas.reDotProduct r_new (map2 Cx.sub r_new r_old) in
  CG.f_alpha f = st.r2 s / CG.f_pAp f
  /\ CG.f_rSloppy f = r_new
  /\ CG.f_r2 f = blas.norm2 r_new
  /\ CG.f_sigma f = (if 0 <=? cross then cross else blas.norm2 r_new).
Proof.
  intros Hpipe; unfold CG.fused_update; rewrite Hpipe.
  destruct (CG.alternative_reliable bld).
  - destruct (blas.cDotProductNormA (st.p s) Ap) as [[a b0] c].
    cbn; repeat split; reflexivity.
  - cbn; repeat split; reflexivity.
Qed.

End AlternativeBeta.

(** The step from the residual [(1, 0)] along [p = (0, -1)]. *)
Lemma sigma_is_guarded_cross_term_witness :
  param.pipeline (Scenario.params 0.5 1 1 1 false) = false
  /\ CG.f_sigma
       (CG.fused_update (Scenario.build false false) (Scenario.params 0.5 1 1 1 false)
          (Scenario.state (Scenario.real_field [0; 0]) (Scenario.real_field [0; 0])
             (Scenario.real_field [1; 0]) (Scenario.real_field [0; -1])
             1 1 1 1 0.5 0 0 0 0 false)
          (Scenario.real_field [0; -1])) = 1.
Proof.
  split; [reflexivity|].
  rewrite (proj2 (proj2 (proj2
    (sigma_is_guarded_cross_term (Scenario.build false false)
       (Scenario.params 0.5 1 1 1 false) _ _ eq_refl)))).
  vm_compute; reflexivity.
Defined.

(** C2 as stated fails: with the identity operator, residual [(1, 0)]
    and direction [(0, -1)], the update gives [r_new = (1, 1)], the cross
    term is 1 and the new squared norm is 2; [sigma] is 1, their maximum
    is 2. *)
Lemma sigma_is_not_the_maximum :
  let h := Scenario.diagonal [1; 1] 0 in
  let s := Scenario.state (Scenario.real_field [0; 0]) (Scenario.real_field [0; 0])
             (Scenario.real_field [1; 0]) (Scenario.real_field [0; -1])
             1 1 1 1 0.5 0 0 0 0 false in
  let Ap := matSloppy h (st.p s) in
  let f := CG.fused_update (Scenario.build false false)
             (Scenario.params 0.5 1 1 1 false) s Ap in
  let cg_norm := fst (blas.axpyCGNorm (- CG.f_alpha f) Ap (st.rSloppy s)) in
  cg_norm = (2, 1)
  /\ CG.f_sigma f = 1
  /\ Double.max (Cx.im cg_norm) (Cx.re cg_norm) = 2
  /\ CG.f_sigma f <> Double.max (Cx.im cg_norm) (Cx.re cg_norm).
Proof.
  cbv zeta; repeat split; try (vm_compute; reflexivity).
  apply eqb_false_neq; vm_compute; reflexivity.
Qed.

(* ================================================================= *)
(** * The block solver's reliable-update test *)

Section BlockReliable.
Local Open Scope float_scope.

(** Raising [maxrr] keeps it above an [r0Norm] it was above. *)
Lemma raised_keeps_guard (r0Norm maxrr rNorm : float) :
  (r0Norm <=? maxrr) = true -> is_nan rNorm = false ->
  (r0Norm <=? Double.max maxrr rNorm) = true.
Proof.
  intros Hle Hn.
  apply (leb_trans r0Norm maxrr); [exact Hle|].
  apply max_ge_l; [now destruct (leb_not_nan _ _ Hle) | exact Hn].
Qed.


End BlockReliable.



(* ================================================================= *)
(** * Residual-increase handling after a reliable update *)

Section ResidualIncrease.

Variable bld : Build.
Variable h : Host.
Variable P : SolverParam.

(** The break-out check and the restart block of a reliable update read
    the replaced residual and decide the counters, the breakdown flag
    and the exit of the loop. *)
Lemma reliable_update_checks (b : Field) (xalias : bool) (Anorm : float)
    (s : st.State) (Ap : Field) (f : CG.Fused) (t : CG.Trigger) (updateX : bool) :
  let res := CG.reliable_update bld h P b xalias Anorm s Ap f t updateX in
  let s' := CG.state_of res in
  let bo := CG.break_out_check P (sqrt (st.r2 s')) (st.r0Norm s') updateX
              (st.resIncrease s) (st.resIncreaseTotal s) (st.L2breakdown s) in
  let hr := CG.heavy_quark_restart_check P (CG.bo_L2breakdown bo) (st.delta s)
              (st.heavy_quark_res s') (st.heavy_quark_res_old s)
              (st.heavy_quark_restart s) (st.hqresIncrease s) in
  st.resIncrease s' = CG.bo_resIncrease bo
  /\ st.resIncreaseTotal s' = CG.bo_resIncreaseTotal bo
  /\ st.L2breakdown s' = CG.bo_L2breakdown bo
  /\ is_break res = CG.bo_break bo || CG.hr_break hr
  /\ (CG.bo_break bo = false ->
      st.delta s' = CG.hr_delta hr /\ st.hqresIncrease s' = CG.hr_hqresIncrease hr)
  /\ (is_break res = false ->
      CG.use_heavy_quark_res P && CG.hr_heavy_quark_restart hr = true ->
      st.p s' = st.rSloppy s').
Proof.
  unfold CG.reliable_update.
  destruct (blas.xmyNorm b (mat h (blas.xpy _ (st.y s)))) as [r2 r].
  cbv zeta.
  destruct (CG.bo_break _) eqn:Ebo.
  - cbn [CG.state_of is_break st.resIncrease st.resIncreaseTotal st.L2breakdown
         st.r2 st.r0Norm st.heavy_quark_res st.delta st.hqresIncrease].
    rewrite Ebo. repeat split; try reflexivity; discriminate.
  - destruct (CG.hr_break _) eqn:Ehr.
    + cbn [CG.state_of is_break st.resIncrease st.resIncreaseTotal st.L2breakdown
           st.r2 st.r0Norm st.heavy_quark_res st.delta st.hqresIncrease].
      rewrite Ebo, Ehr. repeat split; try reflexivity; discriminate.
    + destruct (CG.use_heavy_quark_res P && CG.hr_heavy_quark_restart _) eqn:Ers;
        cbn [CG.state_of is_break st.resIncrease st.resIncreaseTotal
             st.L2breakdown st.r2 st.r0Norm st.heavy_quark_res st.delta
             st.hqresIncrease st.p st.rSloppy];
        rewrite Ebo, Ehr; repeat split; try reflexivity.
      intros _ H; rewrite Ers in H; discriminate.
Qed.


(** In the loop the test reads [r0Norm] after it was overwritten with
    the norm of the replaced residual: no reliable update counts an
    increase, sets [L2breakdown] or leaves the loop by this check. *)
Lemma reliable_update_never_counts (b : Field) (xalias : bool) (Anorm : float)
    (s : st.State) (Ap : Field) (f : CG.Fused) (t : CG.Trigger) (updateX : bool) :
  let s' := CG.state_of (CG.reliable_update bld h P b xalias Anorm s Ap f t updateX) in
  st.r0Norm s' = sqrt (st.r2 s')
  /\ st.resIncrease s' = 0%Z
  /\ st.resIncreaseTotal s' = st.resIncreaseTotal s
  /\ st.L2breakdown s' = st.L2breakdown s.
Proof.
  cbv zeta.
  assert (H0 : st.r0Norm (CG.state_of
             (CG.reliable_update bld h P b xalias Anorm s Ap f t updateX))
           = sqrt (st.r2 (CG.state_of
             (CG.reliable_update bld h P b xalias Anorm s Ap f t updateX)))).
  { unfold CG.reliable_update.
    destruct (blas.xmyNorm b (mat h (blas.xpy _ (st.y s)))) as [r2 r].
    cbv zeta.
    destruct (CG.bo_break _); [|destruct (CG.hr_break _);
      [|destruct (CG.use_heavy_quark_res P && CG.hr_heavy_quark_restart _)]];
      cbn [CG.state_of st.r0Norm st.r2];
      destruct (CG.alternative_reliable bld); reflexivity. }
  split; [exact H0|].
  destruct (reliable_update_checks b xalias Anorm s Ap f t updateX)
    as (H1 & H2 & H3 & _).
  rewrite H1, H2, H3, H0.
  unfold CG.break_out_check; rewrite ltb_irrefl; cbn.
  repeat split; reflexivity.
Qed.

End ResidualIncrease.



(** From a state with sloppy residual [(2, 1)], direction [(2, 0)],
    [b = (8, 3)], [r0Norm = 4] and the identity as operator, [updateX] is
    set, the replaced residual norm [sqrt 39.25] exceeds 4, and still no
    counter moves. *)
Lemma residual_increase_not_counted_on_updateX :
  let h := Scenario.diagonal [1; 1] 0 in
  let P := Scenario.params 0.5 1 1 1 false in
  let bld := Scenario.build false false in
  let b := Scenario.real_field [8; 3] in
  let s := Scenario.state (Scenario.real_field [0; 0]) (Scenario.real_field [0; 0])
             (Scenario.real_field [2; 1]) (Scenario.real_field [2; 0])
             5 4 100 100 0.5 0 0 0 0 false in
  let stop := Solver.stopping (param.tol P) (blas.norm2 b) (param.residual_type P) in
  let t := CG.update_flags bld P stop s (CG.fused_update bld P s (matSloppy h (st.p s))) in
  let s' := CG.state_of (CG.iteration bld h P b true true stop 0 s) in
  CG.t_updateX t = true
  /\ (st.r0Norm s <? sqrt (st.r2 s')) = true
  /\ st.resIncrease s' = 0%Z
  /\ st.resIncreaseTotal s' = st.resIncreaseTotal s.
Proof. cbv zeta; repeat split; vm_compute; reflexivity. Qed.

(* ================================================================= *)
(** * Heavy-quark restart *)

Section HeavyQuarkRestart.

Variable bld : Build.
Variable h : Host.
Variable P : SolverParam.



End HeavyQuarkRestart.



(* ================================================================= *)
(** * Zero right-hand side *)

Section ZeroSource.

Variable bld : Build.
Variable h : Host.
Variable P : SolverParam.

(** C7: a right-hand side of zero norm, with [compute_null_vector]
    disabled, is not fatal: the call returns at once with [x]
    overwritten by [b], [true_res = 0] (and [true_res_hq = 0]), no
    iteration counted and no operator applied. *)
Theorem zero_source_returns_b (x b : ColorSpinorField) :
  on_device x b = true ->
  (blas.norm2 (data b) =? 0) = true ->
  param.compute_null_vector P = false ->
  exists res,
    CG.solve bld h P x b = Returned res
    /\ CG.out_x res = data b
    /\ param.true_res (CG.out_param res) = 0
    /\ param.true_res_hq (CG.out_param res) = 0
    /\ param.iter (CG.out_param res) = param.iter P
    /\ CG.out_k res = 0%Z
    /\ CG.out_applications res = 0%Z.
Proof.
  intros Hdev Hz Hn; unfold CG.solve; rewrite Hdev, Hz, Hn; cbn [negb andb].
  eexists; split; [reflexivity|]; cbn; repeat split; reflexivity.
Qed.

(** C9: a right-hand side of zero norm with [compute_null_vector]
    enabled does not return early; [b2] is replaced by the initial
    residual norm [|b - A x0|^2] and the threshold is
    [stop = tol^2 * b2] on that value. *)
Theorem null_vector_threshold (x b : ColorSpinorField) :
  on_device x b = true ->
  (blas.norm2 (data b) =? 0) = true ->
  param.compute_null_vector P = true ->
  let r2 := blas.norm2 (map2 Cx.sub (data b) (mat h (data x))) in
  let i := CG.setup bld h P x b (blas.norm2 (data b)) in
  CG.su_b2 i = r2
  /\ CG.su_stop i = param.tol P * param.tol P * r2
  /\ st.r2 (CG.su_state i) = r2
  /\ CG.solve bld h P x b
     = Returned (CG.finish h P (data b) r2
                   (CG.loop bld h P (data b) (CG.x_alias P x) (CG.r_alias P x)
                      (param.tol P * param.tol P * r2) (CG.su_Anorm i)
                      (Z.to_nat (param.maxiter P)) (CG.su_state i))).
Proof.
  intros Hdev Hz Hn r2 i.
  assert (Hb2 : CG.su_b2 i = r2).
  { unfold i, r2, CG.setup, blas.xmyNorm; cbn [CG.su_b2]; now rewrite Hz. }
  assert (Hstop : CG.su_stop i = param.tol P * param.tol P * r2).
  { unfold i, r2, CG.setup, blas.xmyNorm, Solver.stopping; cbn [CG.su_stop];
      now rewrite Hz. }
  split; [exact Hb2|]; split; [exact Hstop|]; split.
  - reflexivity.
  - unfold CG.solve; rewrite Hdev, Hz, Hn; cbn [negb andb].
    cbv zeta; fold i; now rewrite Hb2, Hstop.
Qed.

End ZeroSource.

(** The zero source against the initial guess [(1, 2)]. *)
Lemma zero_source_returns_b_witness :
  let x := Scenario.on_gpu [1; 2] in
  let b := Scenario.on_gpu [0; 0] in
  let P := Scenario.params 0.5 1 1 1 false in
  on_device x b = true
  /\ (blas.norm2 (data b) =? 0) = true
  /\ param.compute_null_vector P = false
  /\ exists res,
       CG.solve (Scenario.build false false) (Scenario.diagonal [1; 2] 0) P x b
       = Returned res
       /\ CG.out_x res = data b /\ CG.out_k res = 0%Z.
Proof.
  cbv zeta; split; [reflexivity|]; split; [reflexivity|]; split; [reflexivity|].
  destruct (zero_source_returns_b (Scenario.build false false)
              (Scenario.diagonal [1; 2] 0) (Scenario.params 0.5 1 1 1 false)
              (Scenario.on_gpu [1; 2]) (Scenario.on_gpu [0; 0])
              eq_refl eq_refl eq_refl) as (res & H1 & H2 & _ & _ & _ & H6 & _).
  exists res; auto.
Defined.

(** The null-vector solve of [diag(1, 2)] from the guess [(1, 2)]: the
    initial residual is [(-1, -4)], so [b2 = 17]. *)
Lemma null_vector_threshold_witness :
  let x := Scenario.on_gpu [1; 2] in
  let b := Scenario.on_gpu [0; 0] in
  let P := Scenario.params 0.5 1 1 1 true in
  on_device x b = true
  /\ (blas.norm2 (data b) =? 0) = true
  /\ param.compute_null_vector P = true
  /\ CG.su_b2 (CG.setup (Scenario.build false false) (Scenario.diagonal [1; 2] 0)
                 P x b (blas.norm2 (data b))) = 17.
Proof.
  cbv zeta; split; [reflexivity|]; split; [reflexivity|]; split; [reflexivity|].
  rewrite (proj1 (null_vector_threshold (Scenario.build false false)
              (Scenario.diagonal [1; 2] 0) (Scenario.params 0.5 1 1 1 true)
              (Scenario.on_gpu [1; 2]) (Scenario.on_gpu [0; 0])
              eq_refl eq_refl eq_refl)).
  vm_compute; reflexivity.
Defined.

(* ================================================================= *)
(** * The block dispatcher and the block solver's guards *)

Section Dispatcher.

Variable bld : Build.
Variable P : SolverParam.

(** C8: in a build with the block solver, whose [QUDA_MAX_BLOCK_SRC]
    admits the largest instance, [CG::solve] calls [solve_n<n>] exactly
    for [num_src] among 1..16, 24, 32, 48, 64, with [n = num_src]; for
    any other [num_src] it ends in the fatal-error hook and no block
    solver runs. *)
Theorem dispatch_supported_sizes :
  BLOCKSOLVER bld = true ->
  (64 <= QUDA_MAX_BLOCK_SRC bld)%Z ->
  (In (param.num_src P) BlockCG.supported_num_src ->
   BlockCG.dispatch bld P = Returned (Z.to_nat (param.num_src P))
   /\ forall B x b,
        BlockCG.solve bld P B x b
        = BlockCG.solve_n P B (Z.to_nat (param.num_src P)) x b)
  /\ (~ In (param.num_src P) BlockCG.supported_num_src ->
      exists msg,
        BlockCG.dispatch bld P = Fatal msg
        /\ forall B x b, BlockCG.solve bld P B x b = Fatal msg).
Proof.
  intros HB Hmax; unfold BlockCG.solve, BlockCG.dispatch; rewrite HB; cbn [negb].
  split.
  - intros Hin.
    assert (Hle : (QUDA_MAX_BLOCK_SRC bld <? param.num_src P)%Z = false).
    { apply Z.ltb_ge. unfold BlockCG.supported_num_src in Hin; cbn in Hin.
      repeat (destruct Hin as [Hin|Hin]; [lia|]). contradiction. }
    rewrite Hle.
    unfold BlockCG.supported_num_src in Hin; cbn in Hin.
    repeat (destruct Hin as [Hin|Hin]; [rewrite <- Hin; split; reflexivity|]).
    contradiction.
  - intros Hnot.
    destruct (QUDA_MAX_BLOCK_SRC bld <? param.num_src P)%Z.
    + eexists; split; reflexivity.
    + unfold BlockCG.supported_num_src in Hnot; cbn in Hnot.
      destruct (param.num_src P) as [|n|n];
        try (eexists; split; reflexivity).
      do 7 (try destruct n as [n|n|]);
        try (eexists; split; reflexivity);
        exfalso; apply Hnot; tauto.
Qed.

(** C10: when [residual_type] asks for the heavy-quark residual, the
    block solver ends in the fatal-error hook before its first iteration,
    whatever the iteration would do; past the location and zero-source
    checks the error is the heavy-quark one. *)
Theorem heavy_quark_unsupported_in_block (nsrc : nat) (x b : ColorSpinorField) :
  BlockCG.use_heavy_quark_res P = true ->
  exists msg,
    (forall B, BlockCG.solve_n P B nsrc x b = Fatal msg)
    /\ (on_device x b = true -> BlockCG.zero_source nsrc b = false ->
        msg = "ERROR: heavy quark residual not supported in block solver"%string).
Proof.
  intros Hq; unfold BlockCG.solve_n; rewrite Hq.
  destruct (on_device x b); cbn [negb].
  - destruct (BlockCG.zero_source nsrc b).
    + eexists; split; [reflexivity | discriminate].
    + eexists; split; reflexivity.
  - eexists; split; [reflexivity | discriminate].
Qed.

End Dispatcher.

(** Three right-hand sides are dispatched to [solve_n<3>]. *)
Lemma dispatch_supported_sizes_witness :
  let bld := Scenario.build false false in
  let P := Scenario.params 0.5 1 1 3 false in
  BLOCKSOLVER bld = true
  /\ (64 <= QUDA_MAX_BLOCK_SRC bld)%Z
  /\ In (param.num_src P) BlockCG.supported_num_src
  /\ BlockCG.dispatch bld P = Returned 3%nat.
Proof.
  cbv zeta; split; [reflexivity|]; split; [vm_compute; discriminate|].
  assert (Hin : In (param.num_src (Scenario.params 0.5 1 1 3 false))
                  BlockCG.supported_num_src) by (vm_compute; tauto).
  assert (Hmax : (64 <= QUDA_MAX_BLOCK_SRC (Scenario.build false false))%Z)
    by (vm_compute; discriminate).
  split; [exact Hin|].
  exact (proj1 (proj1 (dispatch_supported_sizes (Scenario.build false false)
    (Scenario.params 0.5 1 1 3 false) eq_refl Hmax) Hin)).
Defined.

(** Two unit sources with the heavy-quark residual requested. *)
Lemma heavy_quark_unsupported_in_block_witness :
  let P := Scenario.params 0.5 5 1 2 false in
  let x := Scenario.block_on_gpu [[0; 0]; [0; 0]] in
  let b := Scenario.block_on_gpu [[1; 0]; [0; 1]] in
  BlockCG.use_heavy_quark_res P = true
  /\ forall B,
       BlockCG.solve_n P B 2 x b
       = Fatal "ERROR: heavy quark residual not supported in block solver".
Proof.
  cbv zeta; split; [reflexivity|].
  destruct (heavy_quark_unsupported_in_block (Scenario.params 0.5 5 1 2 false) 2
              (Scenario.block_on_gpu [[0; 0]; [0; 0]])
              (Scenario.block_on_gpu [[1; 0]; [0; 1]]) eq_refl)
    as (msg & Hf & Hm).
  intros B; rewrite Hf. f_equal. apply Hm; vm_compute; reflexivity.
Defined.

(* ================================================================= *)
(** * Column norms and their aggregate in the block solver *)

Lemma binary_round_aux_nonneg (m e : Z) (l : location) :
  nonneg_sf (binary_round_aux prec emax false m e l).
Proof.
  unfold binary_round_aux.
  destruct (shr_fexp _ _ _ _ _) as [mrs' e'].
  destruct (shr_fexp _ _ _ _ _) as [mrs'' e''].
  destruct (shr_m mrs''); cbn; auto.
  destruct (_ <=? _)%Z; reflexivity.
Qed.












Section BlockResiduals.

Variable policy_min : bool.
Variable nsrc : nat.
Variable C : BlockCG.Matrix.


End BlockResiduals.



(* ================================================================= *)
(** * The main loop terminates within its fuel *)

Section LoopTermination.

Variable bld : Build.
Variable h : Host.
Variable P : SolverParam.
Variable b : Field.
Variables xalias ralias : bool.
Variables stop Anorm : float.





(** Under the classical policy the loop keeps [r0Norm] below [maxrx]
    and [maxrr], as long as the residual norm is a number. *)
Lemma classical_guard_invariant (s : st.State) :
  ALTRELIABLE bld = false ->
  (st.r0Norm s <=? st.maxrx s) = true ->
  (st.r0Norm s <=? st.maxrr s) = true ->
  let s' := CG.state_of (CG.iteration bld h P b xalias ralias stop Anorm s) in
  is_nan (st.rNorm s') = false ->
  (st.r0Norm s' <=? st.maxrx s') = true /\ (st.r0Norm s' <=? st.maxrr s') = true.
Proof.
  intros Halt Hx Hr; unfold CG.iteration; cbv zeta.
  set (Ap := matSloppy h (st.p s)).
  set (f := CG.fused_update bld P s Ap).
  assert (Ht : CG.t_rNorm (CG.update_flags bld P stop s f) = sqrt (CG.f_r2 f)
               /\ CG.t_maxrx (CG.update_flags bld P stop s f)
                  = Double.max (st.maxrx s) (sqrt (CG.f_r2 f))
               /\ CG.t_maxrr (CG.update_flags bld P stop s f)
                  = Double.max (st.maxrr s) (sqrt (CG.f_r2 f))).
  { unfold CG.update_flags, CG.reliable_conditions, CG.alternative_reliable.
    rewrite Halt; repeat split; reflexivity. }
  destruct Ht as (Ht1 & Ht2 & Ht3).
  destruct (negb _).
  - cbn [CG.state_of]. unfold CG.close_iteration, CG.no_update.
    destruct (if param.pipeline P && negb (CG.f_breakdown f) then _ else _)
      as [[xS rS] p].
    cbn [st.rNorm st.r0Norm st.maxrx st.maxrr].
    rewrite Ht1, Ht2, Ht3; intros Hn.
    split; now apply raised_keeps_guard.
  - unfold CG.reliable_update.
    destruct (blas.xmyNorm b (mat h (blas.xpy _ (st.y s)))) as [r2 r].
    cbv zeta; unfold CG.alternative_reliable; rewrite Halt.
    destruct (CG.bo_break _); [|destruct (CG.hr_break _);
      [|destruct (CG.use_heavy_quark_res P && CG.hr_heavy_quark_restart _)]];
      cbn [CG.state_of CG.close_iteration st.rNorm st.r0Norm st.maxrx st.maxrr];
      intros Hn; split; now apply leb_refl.
Qed.

End LoopTermination.

(* ================================================================= *)
(** * The solver on the spec's scenarios *)

(** Scenario S1: [A = diag(1,2,3,4)], [b = (1,1,1,1)], [x0 = 0],
    [tol = 1e-10] takes four iterations and meets the tolerance. *)
Lemma scenario_S1 :
  match CG.solve (Scenario.build false false) (Scenario.diagonal [1; 2; 3; 4] 0)
          (Scenario.params 0.5 1 1 1 false)
          (Scenario.on_gpu [0; 0; 0; 0]) (Scenario.on_gpu [1; 1; 1; 1]) with
  | Returned res =>
      CG.out_k res = 4%Z
      /\ (param.true_res (CG.out_param res) <=? 1e-10) = true
      /\ CG.out_x res
         = Scenario.real_field [1; 0.5; 0.33333333333333337; 0.25]
  | Fatal _ => False
  end.
Proof. vm_compute; repeat split; reflexivity. Qed.

(** Scenario S2: the identity of dimension 16 takes exactly one
    iteration and returns [x = b]. *)
Lemma scenario_S2 :
  let v := [1; 0; 0; 0; 0; 0; 0; 0; 0; 0; 0; 0; 0; 0; 0; 0] in
  let ones := [1; 1; 1; 1; 1; 1; 1; 1; 1; 1; 1; 1; 1; 1; 1; 1] in
  match CG.solve (Scenario.build false false) (Scenario.diagonal ones 0)
          (Scenario.params 0.5 1 1 1 false)
          (Scenario.on_gpu (map (fun _ => 0) v)) (Scenario.on_gpu v) with
  | Returned res => CG.out_k res = 1%Z /\ CG.out_x res = Scenario.real_field v
  | Fatal _ => False
  end.
Proof. vm_compute; repeat split; reflexivity. Qed.

(** On scenario S1 itself the third iteration has a cross term that is
    not negative and below the new squared norm: [sigma] is the cross
    term, not the larger of the two. *)
Lemma sigma_is_not_the_maximum_on_S1 :
  let bld := Scenario.build false false in
  let h := Scenario.diagonal [1; 2; 3; 4] 0 in
  let P := Scenario.params 0.1 1 1 1 false in
  let x := Scenario.on_gpu [0; 0; 0; 0] in
  let b := Scenario.on_gpu [1; 1; 1; 1] in
  let i := CG.setup bld h P x b (blas.norm2 (data b)) in
  let step s := CG.state_of (CG.iteration bld h P (data b) true true
                               (CG.su_stop i) (CG.su_Anorm i) s) in
  let s := step (step (CG.su_state i)) in
  let Ap := matSloppy h (st.p s) in
  let f := CG.fused_update bld P s Ap in
  let cg_norm := fst (blas.axpyCGNorm (- CG.f_alpha f) Ap (st.rSloppy s)) in
  st.k s = 2%Z
  /\ (0 <=? Cx.im cg_norm) = true
  /\ (Cx.im cg_norm <? Cx.re cg_norm) = true
  /\ CG.f_sigma f = Cx.im cg_norm
  /\ CG.f_sigma f <> Double.max (Cx.im cg_norm) (Cx.re cg_norm).
Proof.
  cbv zeta; repeat split; try (vm_compute; reflexivity).
  apply eqb_false_neq; vm_compute; reflexivity.
Qed.

(* ================================================================= *)
(** * The states of a solve *)

Section SteadyLoop.

Variable bld : Build.
Variable h : Host.
Variable P : SolverParam.
Variable b : Field.
Variables xalias ralias : bool.
Variables stop Anorm : float.

(** What a reliable update leaves, whichever way it ends. *)
Lemma reliable_update_fields (s : st.State) (Ap : Field) (f : CG.Fused)
    (t : CG.Trigger) (updateX : bool) :
  let s' := CG.state_of (CG.reliable_update bld h P b xalias Anorm s Ap f t updateX) in
  let y' := blas.xpy (blas.axpy (CG.f_alpha f) (st.p s) (st.xSloppy s)) (st.y s) in
  st.y s' = y'
  /\ st.r s' = map2 Cx.sub b (mat h y')
  /\ st.rSloppy s' = map2 Cx.sub b (mat h y')
  /\ st.r2 s' = blas.norm2 (map2 Cx.sub b (mat h y'))
  /\ Forall (fun z => z = Cx.zero) (st.xSloppy s')
  /\ st.applications s' = (st.applications s + 2)%Z.
Proof.
  unfold CG.reliable_update, blas.xmyNorm; cbv zeta.
  destruct (CG.bo_break _); [|destruct (CG.hr_break _);
    [|destruct (CG.use_heavy_quark_res P && CG.hr_heavy_quark_restart _)]];
    cbn [CG.state_of st.y st.r st.rSloppy st.r2 st.xSloppy st.applications];
    (repeat split; try reflexivity);
    unfold blas.zero; apply Forall_forall; intros z Hz;
    apply in_map_iff in Hz; destruct Hz as (? & Hz & _); now symmetry.
Qed.

(** With no breakdown flagged, a reliable update counts no increase,
    keeps [delta], and falls through to the loop test. *)
Lemma reliable_update_steady (s : st.State) (Ap : Field) (f : CG.Fused)
    (t : CG.Trigger) (updateX : bool) :
  st.L2breakdown s = false ->
  st.heavy_quark_restart s = false ->
  let res := CG.reliable_update bld h P b xalias Anorm s Ap f t updateX in
  let s' := CG.state_of res in
  is_break res = false
  /\ st.L2breakdown s' = false
  /\ st.heavy_quark_restart s' = false
  /\ st.resIncrease s' = 0%Z
  /\ st.resIncreaseTotal s' = st.resIncreaseTotal s
  /\ st.hqresIncrease s' = st.hqresIncrease s
  /\ st.delta s' = st.delta s
  /\ st.rUpdate s' = (st.rUpdate s + 1)%Z
  /\ st.steps_since_reliable s' = 0%Z
  /\ st.k s' = st.k s.
Proof.
  intros HL HR; unfold CG.reliable_update, blas.xmyNorm; cbv zeta.
  assert (Hbo : forall r2 ux,
    CG.break_out_check P (sqrt r2) (sqrt r2) ux
      (st.resIncrease s) (st.resIncreaseTotal s) (st.L2breakdown s)
    = {| CG.bo_resIncrease := 0; CG.bo_resIncreaseTotal := st.resIncreaseTotal s;
         CG.bo_L2breakdown := false; CG.bo_break := false |}).
  { intros r2 ux; unfold CG.break_out_check.
    rewrite ltb_irrefl, HL; reflexivity. }
  destruct (CG.alternative_reliable bld); cbv iota;
  rewrite !Hbo; cbn [CG.bo_break CG.bo_L2breakdown CG.bo_resIncrease
                    CG.bo_resIncreaseTotal];
  unfold CG.heavy_quark_restart_check; rewrite andb_false_r;
  cbn [CG.hr_break CG.hr_delta CG.hr_heavy_quark_restart CG.hr_hqresIncrease];
  rewrite HR, andb_false_r;
  cbn [CG.state_of is_break st.L2breakdown st.heavy_quark_restart
       st.resIncrease st.resIncreaseTotal st.hqresIncrease st.delta
       st.rUpdate st.steps_since_reliable st.k];
  repeat split; reflexivity.
Qed.

(** What an ordinary step leaves of the bookkeeping. *)
Lemma no_update_bookkeeping (s : st.State) (Ap : Field) (f : CG.Fused)
    (t : CG.Trigger) :
  let s' := CG.no_update bld h P xalias ralias Anorm s Ap f t in
  st.L2breakdown s' = st.L2breakdown s
  /\ st.heavy_quark_restart s' = st.heavy_quark_restart s
  /\ st.resIncrease s' = st.resIncrease s
  /\ st.resIncreaseTotal s' = st.resIncreaseTotal s
  /\ st.hqresIncrease s' = st.hqresIncrease s
  /\ st.delta s' = st.delta s
  /\ st.rUpdate s' = st.rUpdate s
  /\ st.k s' = st.k s
  /\ st.applications s' = (st.applications s + 1)%Z
  /\ st.y s' = st.y s
  /\ st.steps_since_reliable s' = (st.steps_since_reliable s + 1)%Z
  /\ st.r2 s' = CG.f_r2 f.
Proof.
  unfold CG.no_update.
  destruct (if param.pipeline P && negb (CG.f_breakdown f) then _ else _)
    as [[xS rS] p].
  repeat split; reflexivity.
Qed.

(** An iteration begun in a steady state does not leave the loop by
    [break], and ends in a steady state. *)
Lemma iteration_steady (first : Z) (s : st.State) :
  Run.steady P first s ->
  CG.loop_test P s = true ->
  let res := CG.iteration bld h P b xalias ralias stop Anorm s in
  is_break res = false /\ Run.steady P first (CG.state_of res).
Proof.
  intros (HL & HR & Hri & Hrt & Hhq & Hd & Hru & Hk & Ha) Ht.
  assert (Hlt : (st.k s < param.maxiter P)%Z).
  { unfold CG.loop_test in Ht; apply andb_prop in Ht; destruct Ht as [_ Ht].
    now apply Z.ltb_lt. }
  unfold CG.iteration; cbv zeta.
  set (Ap := matSloppy h (st.p s)).
  set (f := CG.fused_update bld P s Ap).
  set (t := CG.update_flags bld P stop s f).
  destruct (negb _).
  - destruct (no_update_bookkeeping s Ap f t)
      as (H1 & H2 & H3 & H4 & H5 & H6 & H7 & H8 & H9 & _).
    cbv zeta in *.
    split; [reflexivity|].
    unfold Run.steady;
      cbn [CG.state_of CG.close_iteration st.L2breakdown st.heavy_quark_restart
           st.resIncrease st.resIncreaseTotal st.hqresIncrease st.delta
           st.rUpdate st.k st.applications].
    rewrite H1, H2, H3, H4, H5, H6, H7, H8, H9.
    repeat split; try assumption; lia.
  - destruct (reliable_update_steady s Ap f t (CG.t_updateX t) HL HR)
      as (H0 & H1 & H2 & H3 & H4 & H5 & H6 & H7 & _ & H8).
    destruct (reliable_update_fields s Ap f t (CG.t_updateX t))
      as (_ & _ & _ & _ & _ & H9).
    cbv zeta in *.
    destruct (CG.reliable_update bld h P b xalias Anorm s Ap f t (CG.t_updateX t))
      as [s1|s1]; [|discriminate].
    cbn [CG.state_of] in *.
    split; [reflexivity|].
    unfold Run.steady;
      cbn [CG.close_iteration st.L2breakdown st.heavy_quark_restart
           st.resIncrease st.resIncreaseTotal st.hqresIncrease st.delta
           st.rUpdate st.k st.applications].
    rewrite H1, H2, H3, H4, H5, H6, H7, H8, H9.
    repeat split; try assumption; lia.
Qed.


End SteadyLoop.

Section WholeSolve.

Variable bld : Build.
Variable h : Host.
Variable P : SolverParam.

Lemma setup_steady (x b : ColorSpinorField) (b2 : float) :
  Run.steady P (Run.first_applications bld)
    (CG.su_state (CG.setup bld h P x b b2)).
Proof.
  unfold CG.setup, blas.xmyNorm, Run.steady, Run.first_applications,
    CG.alternative_reliable; cbn.
  repeat split; try reflexivity; lia.
Qed.



End WholeSolve.

Section SolveProperties.

Variable bld : Build.
Variable h : Host.
Variable P : SolverParam.



End SolveProperties.


(* ================================================================= *)
(** * When the loop converges, and when it cannot *)

Lemma sqrt_not_negative (x : float) :
  match Prim2SF (sqrt x) with
  | S754_finite true _ _ | S754_infinity true => False
  | _ => True
  end.
Proof.
  rewrite sqrt_spec; unfold SF64sqrt, SFsqrt.
  destruct (Prim2SF x) as [s|[|]| |[|] m e]; auto.
  destruct (SFsqrt_core_binary _ _ _ _) as [[mz ez] lz].
  pose proof (binary_round_aux_nonneg mz ez lz) as H.
  destruct (binary_round_aux _ _ _ _ _ _) as [s|s| |s m' e']; cbn in H; subst; auto.
Qed.

Lemma mul_zero_l_class (d m : float) :
  (d =? 0) = true ->
  match Prim2SF (d * m) with
  | S754_zero _ | S754_nan => True
  | _ => False
  end.
Proof.
  rewrite eqb_spec, mul_spec; unfold SF64mul.
  change (Prim2SF 0) with (S754_zero false).
  destruct (Prim2SF d) as [sd|sd| |sd md ed], (Prim2SF m) as [sm|sm| |sm mm em];
    cbn; try discriminate; auto; destruct sd; discriminate.
Qed.

(** A square root is never below a product with zero. *)
Lemma sqrt_not_below_zero_product (x d m : float) :
  (d =? 0) = true -> (sqrt x <? d * m) = false.
Proof.
  intros Hd; rewrite ltb_spec.
  pose proof (sqrt_not_negative x) as Hs.
  pose proof (mul_zero_l_class d m Hd) as Hm.
  destruct (Prim2SF (sqrt x)) as [s|[|]| |[|] mx ex],
           (Prim2SF (d * m)) as [s'|s'| |s' m' e'];
    try contradiction; reflexivity.
Qed.

Section LoopInvariants.

Variable bld : Build.
Variable h : Host.
Variable P : SolverParam.
Variable b : Field.
Variables xalias ralias : bool.
Variables stop Anorm : float.

(** What every iteration keeps, the loop keeps. *)
Lemma loop_keeps (I : st.State -> Prop) :
  (forall s, I s -> CG.loop_test P s = true ->
     I (CG.state_of (CG.iteration bld h P b xalias ralias stop Anorm s))) ->
  forall fuel s, I s -> I (CG.loop bld h P b xalias ralias stop Anorm fuel s).
Proof.
  intros Hstep; induction fuel as [|fuel IH]; intros s Hs; cbn [CG.loop];
    [exact Hs|].
  destruct (CG.loop_test P s) eqn:Ht; [|exact Hs].
  specialize (Hstep s Hs Ht).
  destruct (CG.iteration bld h P b xalias ralias stop Anorm s) as [s'|s'];
    [now apply IH | exact Hstep].
Qed.

(** A reliable update that falls through has reset the step count. *)
Lemma reliable_update_continue (s : st.State) (Ap : Field) (f : CG.Fused)
    (t : CG.Trigger) (updateX : bool) :
  let res := CG.reliable_update bld h P b xalias Anorm s Ap f t updateX in
  is_break res = false ->
  st.steps_since_reliable (CG.state_of res) = 0%Z
  /\ st.rUpdate (CG.state_of res) = (st.rUpdate s + 1)%Z.
Proof.
  unfold CG.reliable_update, blas.xmyNorm; cbv zeta.
  destruct (CG.bo_break _); [discriminate|].
  destruct (CG.hr_break _); [discriminate|].
  destruct (CG.use_heavy_quark_res P && CG.hr_heavy_quark_restart _);
    intros _; split; reflexivity.
Qed.

Lemma convergence_without_heavy_quark (r2 hq hq' r2_tol hq_tol : float) :
  CG.use_heavy_quark_res P = false ->
  Solver.convergence P r2 hq r2_tol hq_tol
  = Solver.convergence P r2 hq' r2_tol hq_tol.
Proof.
  unfold CG.use_heavy_quark_res, Solver.convergence, Solver.convergenceHQ.
  now intros ->.
Qed.

(** X3: without the heavy-quark residual and with [delta >= tol], an
    iteration ends with [converged] set only if it was a reliable update:
    then [r2] is the squared norm of [b - A y] freshly computed with the
    reference operator, the sloppy residual is that vector, the sloppy
    accumulator is zero and [steps_since_reliable] is 0. The loop never
    stops on the iterated residual alone. *)
Theorem convergence_on_true_residual (s s' : st.State) :
  CG.use_heavy_quark_res P = false ->
  (param.tol P <=? param.delta P) = true ->
  CG.iteration bld h P b xalias ralias stop Anorm s = CG.Continue s' ->
  st.converged s' = true ->
  st.steps_since_reliable s' = 0%Z
  /\ st.rUpdate s' = (st.rUpdate s + 1)%Z
  /\ st.rSloppy s' = map2 Cx.sub b (mat h (st.y s'))
  /\ st.r2 s' = blas.norm2 (map2 Cx.sub b (mat h (st.y s')))
  /\ Forall (fun z => z = Cx.zero) (st.xSloppy s').
Proof.
  intros Hq Hd; unfold CG.iteration; cbv zeta.
  set (Ap := matSloppy h (st.p s)).
  set (f := CG.fused_update bld P s Ap).
  set (t := CG.update_flags bld P stop s f).
  destruct (negb (CG.t_updateR t || CG.t_updateX t)) eqn:Hu.
  - intros H; injection H as <-.
    cbn [CG.close_iteration st.converged].
    destruct (no_update_bookkeeping bld h P xalias ralias Anorm s Ap f t)
      as (_ & _ & _ & _ & _ & _ & _ & _ & _ & _ & _ & Hr2).
    cbv zeta in Hr2; rewrite Hr2.
    unfold CG.loop_converged; rewrite Hq.
    rewrite (convergence_without_heavy_quark _ _ (st.heavy_quark_res s) _ _ Hq).
    apply negb_true_iff, orb_false_iff in Hu; destruct Hu as [_ Hx].
    subst t; unfold CG.update_flags in Hx; cbn [CG.t_updateX] in Hx.
    unfold CG.forced_updateX in Hx.
    destruct (Solver.convergence P (CG.f_r2 f) (st.heavy_quark_res s) stop
                (param.tol_hq P)); [|discriminate].
    rewrite Hd in Hx; cbn [andb] in Hx.
    destruct (_ && _ && _ && _)%bool; discriminate.
  - pose proof (reliable_update_continue s Ap f t (CG.t_updateX t)) as Hc.
    pose proof (reliable_update_fields bld h P b xalias Anorm s Ap f t
                  (CG.t_updateX t)) as (Hy & _ & HrS & Hr2 & Hx & _).
    cbv zeta in Hc, Hy, HrS, Hr2, Hx.
    destruct (CG.reliable_update bld h P b xalias Anorm s Ap f t (CG.t_updateX t))
      as [s1|s1]; [|discriminate].
    cbn [CG.state_of is_break] in *.
    destruct (Hc eq_refl) as [Hc1 Hc2].
    intros H; injection H as <-; intros _.
    cbn [CG.close_iteration st.steps_since_reliable st.rUpdate st.rSloppy
         st.r2 st.y st.xSloppy].
    rewrite Hy, HrS, Hr2. repeat split; assumption.
Qed.



(** With the classical policy, a zero local [delta] and [delta < tol],
    no reliable update is triggered or forced. *)
Lemma zero_delta_no_reliable_update (s : st.State) :
  ALTRELIABLE bld = false ->
  (st.delta s =? 0) = true ->
  (param.tol P <=? param.delta P) = false ->
  let Ap := matSloppy h (st.p s) in
  let f := CG.fused_update bld P s Ap in
  let t := CG.update_flags bld P stop s f in
  CG.iteration bld h P b xalias ralias stop Anorm s
  = CG.Continue (CG.close_iteration P stop
                   (CG.no_update bld h P xalias ralias Anorm s Ap f t)).
Proof.
  intros Halt Hz Ht Ap f t; unfold CG.iteration; cbv zeta.
  fold Ap; fold f; fold t.
  assert (Hu : CG.t_updateR t || CG.t_updateX t = false).
  { subst t; unfold CG.update_flags, CG.reliable_conditions,
      CG.alternative_reliable, CG.classical_conditions, CG.forced_updateX.
    rewrite Halt, Ht;
      cbn [CG.t_updateR CG.t_updateX CG.t_rNorm CG.t_maxrx CG.t_maxrr].
    rewrite !(sqrt_not_below_zero_product _ _ _ Hz).
    now rewrite !andb_false_r. }
  now rewrite Hu.
Qed.

End LoopInvariants.

Section DeltaProperties.

Variable bld : Build.
Variable h : Host.
Variable P : SolverParam.

(** X4: [delta = 0] with a positive tolerance turns the classical solver
    into plain CG: no reliable update is made in the whole solve, the
    reference accumulator [y] is never touched, every iteration applies
    the sloppy operator once and the reference operator is applied only in
    the preamble. *)
Theorem zero_delta_is_plain_cg (x b : ColorSpinorField) :
  ALTRELIABLE bld = false ->
  (param.delta P =? 0) = true ->
  (param.tol P <=? param.delta P) = false ->
  let i := CG.setup bld h P x b (blas.norm2 (data b)) in
  let s := Run.final_state bld h P x b in
  st.rUpdate s = 0%Z
  /\ st.y s = st.y (CG.su_state i)
  /\ st.applications s = (1 + st.k s)%Z.
Proof.
  intros Halt Hz Ht i s.
  set (I := fun s0 : st.State =>
              Run.steady P (Run.first_applications bld) s0
              /\ st.rUpdate s0 = 0%Z /\ st.y s0 = st.y (CG.su_state i)).
  assert (HI : I s).
  { unfold s, Run.final_state; cbv zeta; fold i.
    apply (loop_keeps bld h P (data b) (CG.x_alias P x) (CG.r_alias P x)
             (CG.su_stop i) (CG.su_Anorm i) I).
    - intros s0 (Hs & Hr & Hy) Hl.
      destruct (iteration_steady bld h P (data b) (CG.x_alias P x)
                  (CG.r_alias P x) (CG.su_stop i) (CG.su_Anorm i) _ s0 Hs Hl)
        as [_ Hs'].
      split; [exact Hs'|].
      assert (Hd0 : (st.delta s0 =? 0) = true).
      { destruct Hs as (_ & _ & _ & _ & _ & Hd & _); now rewrite Hd. }
      rewrite (zero_delta_no_reliable_update bld h P (data b) (CG.x_alias P x)
                 (CG.r_alias P x) (CG.su_stop i) (CG.su_Anorm i) s0 Halt Hd0 Ht).
      cbn [CG.state_of CG.close_iteration st.rUpdate st.y].
      destruct (no_update_bookkeeping bld h P (CG.x_alias P x) (CG.r_alias P x)
                  (CG.su_Anorm i) s0 (matSloppy h (st.p s0))
                  (CG.fused_update bld P s0 (matSloppy h (st.p s0)))
                  (CG.update_flags bld P (CG.su_stop i) s0
                     (CG.fused_update bld P s0 (matSloppy h (st.p s0)))))
        as (_ & _ & _ & _ & _ & _ & H7 & _ & _ & H10 & _).
      cbv zeta in H7, H10; rewrite H7, H10; now split.
    - split; [apply setup_steady|]. split; reflexivity. }
  destruct HI as ((_ & _ & _ & _ & _ & _ & _ & _ & Ha) & Hr & Hy).
  split; [exact Hr|]; split; [exact Hy|].
  rewrite Ha, Hr; unfold Run.first_applications; rewrite Halt; lia.
Qed.


End DeltaProperties.

(** The first iteration on [x = b] with the identity: the step reaches
    the solution and is closed by a forced reliable update. *)
Lemma convergence_on_true_residual_witness :
  let bld := Scenario.build false false in
  let h := Scenario.diagonal [1; 1] 0 in
  let P := Scenario.params 0.5 1 1 1 false in
  let x := Scenario.on_gpu [0; 0] in
  let b := Scenario.on_gpu [1; 2] in
  let i := CG.setup bld h P x b (blas.norm2 (data b)) in
  let s' := CG.state_of (CG.iteration bld h P (data b) true true
                           (CG.su_stop i) (CG.su_Anorm i) (CG.su_state i)) in
  CG.use_heavy_quark_res P = false
  /\ (param.tol P <=? param.delta P) = true
  /\ CG.iteration bld h P (data b) true true (CG.su_stop i) (CG.su_Anorm i)
       (CG.su_state i) = CG.Continue s'
  /\ st.converged s' = true
  /\ st.r2 s' = blas.norm2 (map2 Cx.sub (data b) (mat h (st.y s'))).
Proof.
  cbv zeta.
  assert (H1 : CG.use_heavy_quark_res (Scenario.params 0.5 1 1 1 false) = false)
    by reflexivity.
  assert (H2 : (param.tol (Scenario.params 0.5 1 1 1 false)
                <=? param.delta (Scenario.params 0.5 1 1 1 false)) = true)
    by reflexivity.
  split; [exact H1|]; split; [exact H2|].
  match goal with
  | |- ?it = CG.Continue ?s' /\ ?c = true /\ _ =>
      assert (H3 : it = CG.Continue s') by (vm_compute; reflexivity);
      assert (H4 : c = true) by (vm_compute; reflexivity)
  end.
  split; [exact H3|]; split; [exact H4|].
  exact (proj1 (proj2 (proj2 (proj2
    (convergence_on_true_residual _ _ _ _ _ _ _ _ _ _ H1 H2 H3 H4))))).
Defined.

(** Scenario S1 solved with [delta = 0]. *)
Lemma zero_delta_is_plain_cg_witness :
  let bld := Scenario.build false false in
  let P := Scenario.params 0 1 1 1 false in
  ALTRELIABLE bld = false
  /\ (param.delta P =? 0) = true
  /\ (param.tol P <=? param.delta P) = false
  /\ st.rUpdate (Run.final_state bld (Scenario.diagonal [1; 2; 3; 4] 0) P
                  (Scenario.on_gpu [0; 0; 0; 0]) (Scenario.on_gpu [1; 1; 1; 1]))
     = 0%Z.
Proof.
  cbv zeta; split; [reflexivity|]; split; [reflexivity|]; split; [reflexivity|].
  refine (proj1 (zero_delta_is_plain_cg _ _ _ _ _ _ _ _)); reflexivity.
Defined.


(* ================================================================= *)
(** * The ordinary step and the classical guards *)

Section OrdinaryStep.

Variable bld : Build.
Variable h : Host.
Variable P : SolverParam.
Variables xalias ralias : bool.
Variable Anorm : float.


End OrdinaryStep.

Section ClassicalGuards.

Variable bld : Build.
Variable h : Host.
Variable P : SolverParam.
Variable b : Field.
Variables xalias ralias : bool.
Variables stop Anorm : float.

(** X7: under the classical policy the guards [r0Norm <= maxrx] and
    [r0Norm <= maxrr] are kept by every iteration whose residual norm is
    a number; where they hold, the triggers are the bare comparisons
    [updateX = (rNorm < delta * r0Norm)] and
    [updateR = (rNorm < delta * maxrr) || updateX]. *)
Theorem classical_guards_always_hold (s : st.State) (r2 r2_old : float) :
  ALTRELIABLE bld = false ->
  (st.r0Norm s <=? st.maxrx s) = true ->
  (st.r0Norm s <=? st.maxrr s) = true ->
  is_nan (sqrt r2) = false ->
  let t := CG.reliable_conditions bld P s r2 r2_old in
  let s' := CG.state_of (CG.iteration bld h P b xalias ralias stop Anorm s) in
  CG.t_updateX t = (sqrt r2 <? st.delta s * st.r0Norm s)
  /\ CG.t_updateR t = (sqrt r2 <? st.delta s * CG.t_maxrr t) || CG.t_updateX t
  /\ (is_nan (st.rNorm s') = false ->
      (st.r0Norm s' <=? st.maxrx s') = true
      /\ (st.r0Norm s' <=? st.maxrr s') = true).
Proof.
  intros Halt Hx Hr Hn t s'.
  split; [|split].
  - subst t; unfold CG.reliable_conditions, CG.alternative_reliable,
      CG.classical_conditions; rewrite Halt; cbn [CG.t_updateX].
    change (if st.maxrx s <? sqrt r2 then sqrt r2 else st.maxrx s)
      with (Double.max (st.maxrx s) (sqrt r2)).
    now rewrite (raised_keeps_guard _ _ _ Hx Hn), andb_true_r.
  - subst t; unfold CG.reliable_conditions, CG.alternative_reliable,
      CG.classical_conditions; rewrite Halt;
      cbn [CG.t_updateX CG.t_updateR CG.t_maxrr].
    change (if st.maxrr s <? sqrt r2 then sqrt r2 else st.maxrr s)
      with (Double.max (st.maxrr s) (sqrt r2)).
    now rewrite (raised_keeps_guard _ _ _ Hr Hn), andb_true_r.
  - now apply classical_guard_invariant.
Qed.

End ClassicalGuards.

(** The guards on the first iteration of scenario S1. *)
Lemma classical_guards_always_hold_witness :
  let bld := Scenario.build false false in
  let h := Scenario.diagonal [1; 2; 3; 4] 0 in
  let P := Scenario.params 0.5 1 1 1 false in
  let x := Scenario.on_gpu [0; 0; 0; 0] in
  let b := Scenario.on_gpu [1; 1; 1; 1] in
  let s := CG.su_state (CG.setup bld h P x b (blas.norm2 (data b))) in
  ALTRELIABLE bld = false
  /\ (st.r0Norm s <=? st.maxrx s) = true
  /\ (st.r0Norm s <=? st.maxrr s) = true
  /\ is_nan (sqrt 1) = false
  /\ CG.t_updateX (CG.reliable_conditions bld P s 1 4)
     = (sqrt 1 <? st.delta s * st.r0Norm s).
Proof.
  cbv zeta; split; [reflexivity|]; split; [vm_compute; reflexivity|];
    split; [vm_compute; reflexivity|]; split; [reflexivity|].
  refine (proj1 (classical_guards_always_hold _ (Scenario.diagonal [1; 2; 3; 4] 0)
                   _ [] true true 0 0 _ _ _ _ _ _ _));
    vm_compute; reflexivity.
Defined.

(* ================================================================= *)
(** * The block solver: bounds, trigger and aggregate *)

Section BlockBounds.

Variable bld : Build.
Variable P : SolverParam.

(** X8: whatever [QUDA_MAX_BLOCK_SRC] is, the instance [solve_n<n>] that
    [CG::solve] calls has [n = num_src], [n] one of the supported sizes
    and [1 <= n <= QUDA_MAX_BLOCK_SRC]: the loops over [i < nsrc] stay
    within the arrays [b2], [stop] and [converged], which have
    [QUDA_MAX_BLOCK_SRC] entries. *)
Theorem dispatch_within_array_bound (n : nat) :
  BlockCG.dispatch bld P = Returned n ->
  Z.of_nat n = param.num_src P
  /\ In (param.num_src P) BlockCG.supported_num_src
  /\ (1 <= Z.of_nat n <= QUDA_MAX_BLOCK_SRC bld)%Z.
Proof.
  unfold BlockCG.dispatch.
  destruct (negb (BLOCKSOLVER bld)); [discriminate|].
  destruct (QUDA_MAX_BLOCK_SRC bld <? param.num_src P)%Z eqn:Hmax;
    [discriminate|].
  apply Z.ltb_ge in Hmax; revert Hmax.
  unfold BlockCG.supported_num_src.
  destruct (param.num_src P) as [|p|p]; try discriminate.
  do 7 (try destruct p as [p|p|]); try discriminate;
    intros Hmax H; injection H as <-; cbn; (split; [reflexivity|]);
    (split; [tauto | lia]).
Qed.

End BlockBounds.

(** Twenty-four sources in a build that admits sixty-four. *)
Lemma dispatch_within_array_bound_witness :
  BlockCG.dispatch (Scenario.build false false) (Scenario.params 0.5 1 1 24 false)
  = Returned 24%nat
  /\ (1 <= Z.of_nat 24 <= QUDA_MAX_BLOCK_SRC (Scenario.build false false))%Z.
Proof.
  assert (H : BlockCG.dispatch (Scenario.build false false)
                (Scenario.params 0.5 1 1 24 false) = Returned 24%nat)
    by reflexivity.
  split; [exact H|].
  exact (proj2 (proj2 (dispatch_within_array_bound _ _ _ H))).
Defined.


Section BlockTrigger.

(** X9: [CG::block_reliable] sets [rNorm] to the square root of [r2]
    and never lowers [maxrx] or [maxrr]: with numbers for inputs, each is
    afterwards at least its old value and at least [rNorm]. With
    [delta = 0] the test never triggers, whatever the residuals are. *)
Theorem block_reliable_bounds (rNorm maxrx maxrr r2 delta : float) :
  let '(updateR, (rNorm', maxrx', maxrr')) :=
    BlockCG.block_reliable rNorm maxrx maxrr r2 delta in
  rNorm' = sqrt r2
  /\ ((delta =? 0) = true -> updateR = false)
  /\ (is_nan (sqrt r2) = false -> is_nan maxrx = false ->
      (maxrx <=? maxrx') = true /\ (rNorm' <=? maxrx') = true)
  /\ (is_nan (sqrt r2) = false -> is_nan maxrr = false ->
      (maxrr <=? maxrr') = true /\ (rNorm' <=? maxrr') = true).
Proof.
  cbn; split; [reflexivity|]; split; [|split].
  - intros Hd; now apply sqrt_not_below_zero_product.
  - intros Hn Hm; split; [now apply max_ge_l | now apply max_ge_r].
  - intros Hn Hm; split; [now apply max_ge_l | now apply max_ge_r].
Qed.

End BlockTrigger.

(** The test at [delta = 0] on a residual fallen from norm 4 to 1. *)
Lemma block_reliable_bounds_witness :
  (0 =? 0) = true
  /\ is_nan (sqrt 1) = false /\ is_nan 4 = false
  /\ fst (BlockCG.block_reliable 4 4 4 1 0) = false.
Proof.
  split; [reflexivity|]; split; [reflexivity|]; split; [reflexivity|].
  exact (proj1 (proj2 (block_reliable_bounds 4 4 4 1 0)) eq_refl).
Defined.

Section BlockAggregate.

Variable policy_min : bool.
Variable nsrc : nat.
Variable C : BlockCG.Matrix.



End BlockAggregate.

(* ================================================================= *)
(** * The auxiliary worker *)

Section ListSlices.

Context {A B : Type}.

Lemma combine_skipn (n : nat) (l : list A) (l' : list B) :
  combine (skipn n l) (skipn n l') = skipn n (combine l l').
Proof.
  revert l l'; induction n as [|n IH]; intros [|a l] [|b l']; cbn;
    try reflexivity.
  - now destruct (skipn n l).
  - apply IH.
Qed.

Lemma combine_firstn_r (n : nat) (l : list A) (l' : list B) :
  combine l (firstn n l') = firstn n (combine l l').
Proof.
  revert l l'; induction n as [|n IH]; intros [|a l] [|b l']; cbn;
    try reflexivity.
  now rewrite IH.
Qed.

Lemma firstn_plus (s n : nat) (l : list A) :
  firstn (s + n) l = firstn s l ++ firstn n (skipn s l).
Proof.
  revert l; induction s as [|s IH]; intros [|a l]; cbn; try reflexivity.
  - now rewrite firstn_nil.
  - now rewrite IH.
Qed.

End ListSlices.

Section WorkerCycle.

Local Open Scope nat_scope.

Variable alpha : BlockCG.Matrix.
Variable pp : list Field.
Variable n_update : nat.
Hypothesis Hnu : 0 < n_update.

Let n_rhs := List.length pp.
Let q := n_rhs / n_update.
Let L := combine alpha pp.
Let f := fun (y' : list Field) (ax : list Complex * Field) =>
  map2 (fun aij yj => blas.caxpy aij (snd ax) yj) (fst ax) y'.

Lemma q_bound : n_update * q <= n_rhs.
Proof. unfold q; apply Nat.Div0.mul_div_le. Qed.

Lemma L_length : List.length L <= n_rhs.
Proof. unfold L, n_rhs; rewrite length_combine; lia. Qed.

Lemma worker_caxpy_slice (start len : nat) (x : list Field) :
  Worker.caxpy (skipn start alpha) (firstn len (skipn start pp)) x
  = fold_left f (firstn len (skipn start L)) x.
Proof.
  unfold Worker.caxpy; fold f.
  now rewrite combine_firstn_r, combine_skipn.
Qed.

Lemma slice_inner (count : nat) :
  count + 1 < n_update ->
  Worker.slice n_rhs n_update count = Some (count * q, q)
  \/ (Worker.slice n_rhs n_update count = None /\ q = 0).
Proof.
  intros Hc; unfold Worker.slice; fold q.
  destruct (count =? n_update - 1) eqn:E1;
    [apply Nat.eqb_eq in E1; lia|].
  destruct (q =? 0) eqn:E2; cbn [negb andb orb]; [|now left].
  apply Nat.eqb_eq in E2.
  destruct (n_rhs - n_update * q =? 0); [now left | now right].
Qed.

Lemma slice_last :
  exists len, Worker.slice n_rhs n_update (n_update - 1)
              = Some ((n_update - 1) * q, len)
              /\ (n_update - 1) * q + len = n_rhs.
Proof.
  unfold Worker.slice; fold q.
  rewrite Nat.eqb_refl; cbn [negb andb orb].
  pose proof q_bound as Hq.
  destruct (n_rhs - n_update * q =? 0) eqn:E.
  - apply Nat.eqb_eq in E; exists q; split; [reflexivity|]. nia.
  - exists (n_rhs - (n_update - 1) * q); split; [reflexivity|]. nia.
Qed.

Lemma next_inner (count : nat) :
  count + 1 < n_update -> Worker.next_count n_update count = count + 1.
Proof.
  intros Hc; unfold Worker.next_count.
  destruct (count + 1 =? n_update) eqn:E; [apply Nat.eqb_eq in E; lia|].
  reflexivity.
Qed.

Lemma next_last : Worker.next_count n_update (n_update - 1) = 0.
Proof.
  unfold Worker.next_count.
  replace (n_update - 1 + 1) with n_update by lia.
  now rewrite Nat.eqb_refl.
Qed.

Lemma apply_inner (count : nat) (x : list Field) :
  count + 1 < n_update ->
  Worker.apply alpha pp n_update count x
  = (count + 1, fold_left f (firstn q (skipn (count * q) L)) x).
Proof.
  intros Hc; unfold Worker.apply; fold n_rhs.
  rewrite (next_inner _ Hc); f_equal.
  destruct (slice_inner _ Hc) as [-> | [-> Hq]].
  - apply worker_caxpy_slice.
  - now rewrite Hq.
Qed.

Lemma apply_last (x : list Field) :
  Worker.apply alpha pp n_update (n_update - 1) x
  = (0, fold_left f (skipn ((n_update - 1) * q) L) x).
Proof.
  unfold Worker.apply; fold n_rhs.
  rewrite next_last; f_equal.
  destruct slice_last as (len & -> & Hlen).
  rewrite worker_caxpy_slice, firstn_all2; [reflexivity|].
  rewrite length_skipn; pose proof L_length; lia.
Qed.

Lemma applies_inner (calls : nat) :
  forall (count : nat) (x : list Field),
  count + calls < n_update ->
  Worker.applies alpha pp n_update calls count x
  = (count + calls,
     fold_left f (firstn (calls * q) (skipn (count * q) L)) x).
Proof.
  induction calls as [|c IH]; intros count x Hc; cbn [Worker.applies].
  - now rewrite Nat.add_0_r.
  - rewrite apply_inner by lia.
    rewrite IH by lia.
    f_equal; [lia|].
    replace (S c * q) with (q + c * q) by lia.
    rewrite firstn_plus, fold_left_app, skipn_skipn.
    now replace (q + count * q) with ((count + 1) * q) by lia.
Qed.

Lemma applies_app (c1 c2 : nat) :
  forall (count : nat) (x : list Field),
  Worker.applies alpha pp n_update (c1 + c2) count x
  = let '(count', x') := Worker.applies alpha pp n_update c1 count x in
    Worker.applies alpha pp n_update c2 count' x'.
Proof.
  induction c1 as [|c1 IH]; intros count x; cbn [Worker.applies Nat.add];
    [reflexivity|].
  destruct (Worker.apply alpha pp n_update count x) as [count' x'].
  apply IH.
Qed.

Lemma applies_cycle (x : list Field) :
  Worker.applies alpha pp n_update n_update 0 x = (0, Worker.caxpy alpha pp x).
Proof.
  replace n_update with ((n_update - 1) + 1) at 2 by lia.
  rewrite applies_app, applies_inner by lia.
  cbn [Worker.applies Nat.add skipn Nat.mul].
  rewrite apply_last, <- fold_left_app, firstn_skipn.
  reflexivity.
Qed.

Lemma covered_inner (count : nat) :
  count + 1 < n_update -> Worker.covered n_rhs n_update count = seq (count * q) q.
Proof.
  intros Hc; unfold Worker.covered.
  destruct (slice_inner _ Hc) as [-> | [-> Hq]]; [reflexivity|].
  now rewrite Hq.
Qed.

Lemma covered_prefix (c : nat) :
  c < n_update ->
  List.concat (map (Worker.covered n_rhs n_update) (seq 0 c)) = seq 0 (c * q).
Proof.
  induction c as [|c IH]; intros Hc; [reflexivity|].
  rewrite seq_S, map_app, concat_app, IH by lia.
  cbn [map List.concat]; rewrite app_nil_r, Nat.add_0_l, covered_inner by lia.
  replace (S c * q) with (c * q + q) by lia.
  now rewrite seq_app.
Qed.

Lemma covered_cycle :
  List.concat (map (Worker.covered n_rhs n_update) (seq 0 n_update)) = seq 0 n_rhs.
Proof.
  replace n_update with (S (n_update - 1)) at 2 by lia.
  rewrite seq_S, map_app, concat_app, covered_prefix by lia.
  cbn [map List.concat]; rewrite app_nil_r, Nat.add_0_l.
  unfold Worker.covered; destruct slice_last as (len & -> & Hlen).
  now rewrite <- seq_app, Hlen.
Qed.

End WorkerCycle.

(** X11: the calls of the worker during one operator application,
    [n_update] of them from the cursor at rest, together make the whole
    block update [x_sloppy <- x_sloppy + P alpha] that they replace, bit
    for bit, and leave the cursor at rest again; this for any number of
    sources, also one that [n_update] does not divide or that is below
    it. *)
Theorem worker_cycle_is_block_caxpy (Nspin : Z) (alpha : BlockCG.Matrix)
    (pp x_sloppy : list Field) :
  Worker.applies alpha pp (Worker.n_update_of Nspin) (Worker.n_update_of Nspin)
    0 x_sloppy
  = (0%nat, Worker.caxpy alpha pp x_sloppy).
Proof.
  apply applies_cycle.
  unfold Worker.n_update_of; destruct (Nspin =? 4)%Z; lia.
Qed.

(** X12: over one cycle the calls of the worker take the components of
    [P] in consecutive slices that cover each of the [n_rhs] components
    exactly once and in order; with fewer sources than calls, all the
    calls but the last do nothing. *)
Theorem worker_slices_partition (Nspin : Z) (n_rhs : nat) :
  let n_update := Worker.n_update_of Nspin in
  List.concat (map (Worker.covered n_rhs n_update) (seq 0 n_update))
  = seq 0 n_rhs
  /\ ((n_rhs < n_update)%nat ->
      forall count : nat, (count + 1 < n_update)%nat ->
      Worker.covered n_rhs n_update count = []).
Proof.
  intros n_update.
  assert (Hnu : (0 < n_update)%nat)
    by (unfold n_update, Worker.n_update_of; destruct (Nspin =? 4)%Z; lia).
  pose proof (covered_cycle (repeat [] n_rhs) n_update Hnu) as Hc.
  pose proof (covered_inner (repeat [] n_rhs) n_update Hnu) as Hi.
  cbv zeta in Hc, Hi; rewrite repeat_length in Hc, Hi.
  split; [exact Hc|].
  intros Hlt count Hcount; rewrite (Hi count Hcount).
  now rewrite (Nat.div_small _ _ Hlt).
Qed.

(** Three sources under four calls: the last call makes the update. *)
Lemma worker_slices_partition_witness :
  (3 < Worker.n_update_of 4)%nat
  /\ Worker.covered 3 (Worker.n_update_of 4) 0 = []
  /\ Worker.covered 3 (Worker.n_update_of 4) 3 = [0; 1; 2]%nat.
Proof.
  assert (H : (3 < Worker.n_update_of 4)%nat) by (cbn; lia).
  split; [exact H|]; split; [|reflexivity].
  refine (proj2 (worker_slices_partition 4 3) H 0%nat _); cbn; lia.
Defined.

(* ================================================================= *)
(** * The block iteration *)

Section BlockSchedule.

Variable bld : Build.
Variable kn : BCGrQ.Kernels.
Variable P : SolverParam.
Variable nsrc : nat.
Variable Nspin : Z.
Variable b : list Field.

Let iteration := BCGrQ.iteration bld kn P nsrc Nspin b.
Let loop := BCGrQ.loop bld kn P nsrc Nspin b.

Lemma n_update_positive : (0 < BCGrQ.n_update Nspin)%nat.
Proof.
  unfold BCGrQ.n_update, Worker.n_update_of; destruct (Nspin =? 4)%Z; lia.
Qed.

Lemma iteration_shape (s : BCGrQ.State) :
  BCGrQ.count s = 0%nat ->
  let s' := iteration s in
  BCGrQ.count s' = 0%nat
  /\ BCGrQ.k s' = (BCGrQ.k s + 1)%Z
  /\ BCGrQ.tmpp s' = BCGrQ.pp s
  /\ BCGrQ.steps s' = BCGrQ.steps s ++ [(BCGrQ.alpha s', BCGrQ.pp s)]
  /\ ((BCGrQ.just_reliable_updated s' = true
       /\ BCGrQ.rUpdate s' = (BCGrQ.rUpdate s + 1)%Z
       /\ BCGrQ.updates s'
          = (BCGrQ.updates s ++ BCGrQ.pending s) ++ [(BCGrQ.alpha s', BCGrQ.pp s)]
       /\ exists r2 : float,
            fst (BlockCG.block_reliable (BCGrQ.rNorm s) (BCGrQ.maxrx s)
                   (BCGrQ.maxrr s) r2 (param.delta P)) = true)
      \/ (BCGrQ.just_reliable_updated s' = false
          /\ BCGrQ.rUpdate s' = BCGrQ.rUpdate s
          /\ BCGrQ.updates s' = BCGrQ.updates s ++ BCGrQ.pending s
          /\ BCGrQ.y s' = BCGrQ.y s /\ BCGrQ.r s' = BCGrQ.r s)).
Proof.
  intros Hc s'; subst s'; unfold iteration, BCGrQ.iteration, BCGrQ.pending.
  rewrite Hc.
  rewrite (applies_cycle _ _ _ n_update_positive).
  destruct (BCGrQ.worker_on s) eqn:W.
  - destruct (BlockCG.block_reliable _ _ _ _ _) as [[] [[rN mx] mr]] eqn:E.
    + assert (Hex : exists r2 : float,
                fst (BlockCG.block_reliable (BCGrQ.rNorm s) (BCGrQ.maxrx s)
                       (BCGrQ.maxrr s) r2 (param.delta P)) = true)
        by (eexists; rewrite E; reflexivity).
      cbn; repeat split; auto; left; repeat split; auto.
    + cbn; repeat split; auto; right; repeat split; auto.
      unfold BCGrQ.worker_on in W; apply andb_prop in W.
      now destruct (BCGrQ.just_reliable_updated s).
  - destruct (BlockCG.block_reliable _ _ _ _ _) as [[] [[rN mx] mr]] eqn:E.
    + assert (Hex : exists r2 : float,
                fst (BlockCG.block_reliable (BCGrQ.rNorm s) (BCGrQ.maxrx s)
                       (BCGrQ.maxrr s) r2 (param.delta P)) = true)
        by (eexists; rewrite E; reflexivity).
      cbn; rewrite ?app_nil_r; repeat split; auto; left; repeat split; auto.
    + cbn; rewrite ?app_nil_r; repeat split; auto; right; repeat split; auto.
Qed.

Lemma iteration_k (s : BCGrQ.State) :
  BCGrQ.k (iteration s) = (BCGrQ.k s + 1)%Z.
Proof.
  unfold iteration, BCGrQ.iteration.
  destruct (if BCGrQ.worker_on s then _ else _) as [c x1].
  destruct (BlockCG.block_reliable _ _ _ _ _) as [[] [[rN mx] mr]]; reflexivity.
Qed.



Lemma loop_k_grows (fuel : nat) :
  forall s : BCGrQ.State,
  (BCGrQ.k s <= BCGrQ.k (loop fuel s))%Z
  /\ (BCGrQ.loop_test P s = true -> (0 < fuel)%nat ->
      (BCGrQ.k s < BCGrQ.k (loop fuel s))%Z).
Proof.
  induction fuel as [|fuel IH]; intros s; cbn; [split; lia|].
  destruct (BCGrQ.loop_test P s) eqn:Ht; [|split; [lia | discriminate]].
  destruct (IH (iteration s)) as [Hle _].
  pose proof (iteration_k s) as Hk.
  fold iteration; split; [lia | intros _ _; lia].
Qed.


Lemma loop_at_rest (fuel : nat) (s : BCGrQ.State) :
  BCGrQ.loop_test P s = false -> loop fuel s = s.
Proof. intros Ht; destruct fuel; cbn; [reflexivity | now rewrite Ht]. Qed.

Lemma loop_without_reliable_update (fuel : nat) :
  (param.delta P =? 0)%float = true ->
  forall s : BCGrQ.State,
  BCGrQ.count s = 0%nat ->
  let s' := loop fuel s in
  BCGrQ.count s' = 0%nat /\ BCGrQ.rUpdate s' = BCGrQ.rUpdate s
  /\ BCGrQ.y s' = BCGrQ.y s /\ BCGrQ.r s' = BCGrQ.r s.
Proof.
  intros Hd; induction fuel as [|fuel IH]; intros s Hc; cbn; [now repeat split|].
  destruct (BCGrQ.loop_test P s); [|now repeat split].
  destruct (iteration_shape s Hc) as (Hc' & _ & _ & _ & Hcase).
  destruct Hcase as [(_ & _ & _ & r2 & Hr) | (_ & Hru & _ & Hy & Hr)].
  - cbn in Hr; now rewrite (sqrt_not_below_zero_product _ _ _ Hd) in Hr.
  - destruct (IH (iteration s) Hc') as (H1 & H2 & H3 & H4).
    fold iteration; repeat split; congruence.
Qed.

End BlockSchedule.

Section BlockRun.

Variable bld : Build.
Variable kn : BCGrQ.Kernels.
Variable P : SolverParam.
Variable nsrc : nat.
Variable Nspin : Z.
Variable alpha_raw0 : BlockCG.Matrix.
Variable b : list Field.
Variable m : BCGrQ.Members.
Variable x : ColorSpinorField.

Let setup := BCGrQ.setup bld kn P nsrc alpha_raw0 b m x.
Let final := BCGrQ.final_state bld kn P nsrc Nspin alpha_raw0 b m x.
Let res := BCGrQ.run bld kn P nsrc Nspin alpha_raw0 b m x.


Lemma flush_keeps (s : BCGrQ.State) :
  BCGrQ.k (BCGrQ.flush s) = BCGrQ.k s
  /\ BCGrQ.rUpdate (BCGrQ.flush s) = BCGrQ.rUpdate s
  /\ BCGrQ.count (BCGrQ.flush s) = BCGrQ.count s
  /\ BCGrQ.steps (BCGrQ.flush s) = BCGrQ.steps s
  /\ BCGrQ.y (BCGrQ.flush s) = BCGrQ.y s.
Proof.
  unfold BCGrQ.flush; destruct (BCGrQ.just_reliable_updated s);
    now repeat split.
Qed.




(** X15: when the loop makes no iteration (every column is converged on
    the initial guess, or [maxiter] is not positive), no update is
    computed, and the flush after the loop still makes one block [caxpy]
    on [x_sloppy]: of the initial residual, by [alpha_raw] as it was
    constructed. The solution returned is the initial guess plus that
    product. *)
Theorem block_flush_without_iteration :
  BCGrQ.loop_test P setup = false ->
  let r0 := BCGrQ.xpay b (-1) (BCGrQ.mat kn (Components x)) in
  BCGrQ.out_k res = 0%Z
  /\ BCGrQ.out_steps res = []
  /\ BCGrQ.out_updates res = [(alpha_raw0, r0)]
  /\ BCGrQ.out_x res
     = BCGrQ.xpy (Worker.caxpy alpha_raw0 r0 (BCGrQ.x_sloppy setup))
         (Components x).
Proof.
  intros Ht r0.
  unfold res, BCGrQ.run, BCGrQ.final_state.
  fold setup; rewrite (loop_at_rest bld kn P nsrc Nspin b _ _ Ht).
  now repeat split.
Qed.

(** X16: with [delta = 0] the block solver makes no reliable update:
    the residual is never recomputed from the operator, [y] stays the
    initial guess, and the solution returned is the initial guess plus
    what the sloppy iteration accumulated. *)
Theorem block_zero_delta_no_reliable_update :
  (param.delta P =? 0)%float = true ->
  BCGrQ.worker_count m = 0%nat ->
  BCGrQ.out_rUpdate res = 0%Z
  /\ BCGrQ.y final = Components x
  /\ BCGrQ.r final = BCGrQ.xpay b (-1) (BCGrQ.mat kn (Components x))
  /\ BCGrQ.out_x res
     = BCGrQ.xpy (BCGrQ.x_sloppy (BCGrQ.flush final)) (Components x).
Proof.
  intros Hd Hc.
  assert (Hl : BCGrQ.count final = 0%nat
               /\ BCGrQ.rUpdate final = BCGrQ.rUpdate setup
               /\ BCGrQ.y final = BCGrQ.y setup /\ BCGrQ.r final = BCGrQ.r setup)
    by (apply loop_without_reliable_update; assumption).
  destruct Hl as (_ & Hr & Hy & Hrr).
  destruct (flush_keeps final) as (_ & Fr & _ & _ & Fy).
  unfold res, BCGrQ.run, BCGrQ.finish; cbn; fold final.
  rewrite Fr, Fy, Hr, Hy, Hrr.
  now repeat split.
Qed.

(** X17: with [compute_true_res] set the call reports one true residual
    per column in [true_res_offset], and [param.true_res] and
    [param.true_res_hq] are left holding those of the last column. *)
Theorem block_true_res_is_last_column :
  param.compute_true_res P = true -> (0 < nsrc)%nat ->
  let rx := BCGrQ.mat kn (BCGrQ.out_x res) in
  BCGrQ.out_true_res_offset res
  = map (fun i => sqrt (blas.norm2 (map2 Cx.sub (nth i b []) (nth i rx []))
                        / blas.norm2 (nth i b [])))
      (seq 0 nsrc)
  /\ param.true_res (BCGrQ.out_param res)
     = last (BCGrQ.out_true_res_offset res) 0
  /\ param.true_res_hq (BCGrQ.out_param res)
     = last (BCGrQ.out_true_res_hq_offset res) 0.
Proof.
  intros Ht Hn rx; subst rx.
  unfold res, BCGrQ.run, BCGrQ.finish.
  cbn [BCGrQ.out_true_res_offset BCGrQ.out_true_res_hq_offset
       BCGrQ.out_param BCGrQ.out_x].
  rewrite Ht.
  split; [reflexivity|].
  destruct nsrc as [|n]; [lia|].
  rewrite seq_S, !map_app, fold_left_app; cbn [map fold_left].
  rewrite !last_last.
  now split.
Qed.


End BlockRun.


(** A guess within the tolerance: it is returned as it was given. *)
Lemma block_flush_without_iteration_witness :
  BCGrQ.loop_test (BlockScenario.params 0.5 0.1 100)
    (BCGrQ.setup (Scenario.build false false) (BlockScenario.kernels [1; 2; 3; 4])
       (BlockScenario.params 0.5 0.1 100) 1 [[(0, 0)]] BlockScenario.source
       BlockScenario.fresh BlockScenario.near_guess) = false
  /\ BCGrQ.out_x (BlockScenario.run 0.5 0.1 100 0 BlockScenario.fresh
                    BlockScenario.near_guess)
     = [Scenario.real_field [0.75; 0.5; 0.25; 0.25]].
Proof.
  assert (H : BCGrQ.loop_test (BlockScenario.params 0.5 0.1 100)
    (BCGrQ.setup (Scenario.build false false) (BlockScenario.kernels [1; 2; 3; 4])
       (BlockScenario.params 0.5 0.1 100) 1 [[(0, 0)]] BlockScenario.source
       BlockScenario.fresh BlockScenario.near_guess) = false)
    by (vm_compute; reflexivity).
  split; [exact H|].
  unfold BlockScenario.run.
  rewrite (proj2 (proj2 (proj2
    (block_flush_without_iteration _ _ _ _ 4 _ _ _ _ H)))).
  vm_compute; reflexivity.
Defined.

(** The same block with [delta = 0]. *)
Lemma block_zero_delta_no_reliable_update_witness :
  BCGrQ.out_rUpdate (BlockScenario.run 1e-10 0 100 0 BlockScenario.fresh
                       BlockScenario.zero_guess) = 0%Z.
Proof.
  exact (proj1
    (block_zero_delta_no_reliable_update (Scenario.build false false)
       (BlockScenario.kernels [1; 2; 3; 4]) (BlockScenario.params 1e-10 0 100)
       1 4 [[(0, 0)]] BlockScenario.source BlockScenario.fresh
       BlockScenario.zero_guess eq_refl eq_refl)).
Defined.

Lemma block_true_res_is_last_column_witness :
  param.true_res
    (BCGrQ.out_param (BlockScenario.run 1e-10 0.1 2 0 BlockScenario.fresh
                        BlockScenario.zero_guess))
  = last (BCGrQ.out_true_res_offset
            (BlockScenario.run 1e-10 0.1 2 0 BlockScenario.fresh
               BlockScenario.zero_guess)) 0.
Proof.
  refine (proj1 (proj2
    (block_true_res_is_last_column (Scenario.build false false)
       (BlockScenario.kernels [1; 2; 3; 4]) (BlockScenario.params 1e-10 0.1 2)
       1 4 [[(0, 0)]] BlockScenario.source BlockScenario.fresh
       BlockScenario.zero_guess eq_refl _))).
  lia.
Defined.


Section BlockEntry.

Variable bld : Build.
Variable P : SolverParam.
Variable B : nat -> ColorSpinorField -> ColorSpinorField -> CG.Result.

(** X19: [CG::solve] returns, rather than end in the fatal-error hook,
    exactly when the build has the block solver, [num_src] is one of the
    supported sizes and at most [QUDA_MAX_BLOCK_SRC], both fields live on
    the device, no source of the block has zero norm and the heavy-quark
    residual is not asked for; the result is then that of the iteration
    on [num_src] sources. In particular a block with a zero source is
    never answered with [x = b]. *)
Theorem block_solve_returns (x b : ColorSpinorField) (r : CG.Result) :
  BlockCG.solve bld P B x b = Returned r
  <-> (BLOCKSOLVER bld = true
       /\ (param.num_src P <= QUDA_MAX_BLOCK_SRC bld)%Z
       /\ In (param.num_src P) BlockCG.supported_num_src
       /\ on_device x b = true
       /\ BlockCG.zero_source (Z.to_nat (param.num_src P)) b = false
       /\ BlockCG.use_heavy_quark_res P = false
       /\ r = B (Z.to_nat (param.num_src P)) x b).
Proof.
  unfold BlockCG.solve, BlockCG.dispatch, BlockCG.supported_num_src.
  destruct (BLOCKSOLVER bld); cbn [negb];
    [|split; [discriminate | now intros [? _]]].
  destruct (QUDA_MAX_BLOCK_SRC bld <? param.num_src P)%Z eqn:Hmax.
  - apply Z.ltb_lt in Hmax.
    split; [discriminate | intros (_ & H & _); lia].
  - apply Z.ltb_ge in Hmax.
    assert (Hn : forall n : nat,
      BlockCG.solve_n P B n x b = Returned r
      <-> (on_device x b = true /\ BlockCG.zero_source n b = false
           /\ BlockCG.use_heavy_quark_res P = false /\ r = B n x b)).
    { intros n; unfold BlockCG.solve_n.
      destruct (on_device x b); cbn [negb];
        [|split; [discriminate | now intros [? _]]].
      destruct (BlockCG.zero_source n b);
        [split; [discriminate | now intros (_ & ? & _)]|].
      destruct (BlockCG.use_heavy_quark_res P);
        [split; [discriminate | now intros (_ & _ & ? & _)]|].
      split; [intros H; injection H as <-; now repeat split|].
      now intros (_ & _ & _ & ->). }
    destruct (param.num_src P) as [|p|p];
      try (split; [discriminate | cbn; intros (_ & _ & Hin & _);
                   repeat (destruct Hin as [Hin | Hin]; [discriminate|]);
                   contradiction]).
    do 7 (try destruct p as [p|p|]);
      try (split; [discriminate | cbn; intros (_ & _ & Hin & _);
                   repeat (destruct Hin as [Hin | Hin]; [discriminate|]);
                   contradiction]);
      rewrite Hn; cbn [Z.to_nat Pos.to_nat Pos.iter_op Nat.add];
      (split; [intros H; repeat split; try apply H; try lia; cbn; tauto
              | intros (_ & _ & _ & H); exact H]).
Qed.

End BlockEntry.
